(** * Options normalizer: the mapping layer of [src/main/options-normalizer.js]

    The module adapts a list of option descriptors to the schema primitives
    of the [vnopts] validation engine and hands the raw options over to it.
    The engine, the [leven] distance, [chalk] and the conversions of IEEE
    doubles are external collaborators: they are variables of the section
    below, so every statement holds for whatever they compute. *)

From Stdlib Require Import List String Ascii Bool Arith ZArith Lia.
From Stdlib Require Import Sorted Permutation DecimalString.
Import ListNotations.
Open Scope list_scope.
Open Scope string_scope.

Set Implicit Arguments.
Set Warnings "-register-all,-notation-for-abbreviation".

(** ** Completions and the logging trace

    A JavaScript call either returns or throws; the only effect of this
    module is a call to the [warn] method of a logger.  A computation is a
    completion together with the [warn] calls it made, in order. *)

Inductive error : Type :=
| TypeError (msg : string)
| Error (msg : string).

Inductive completion (A : Type) : Type :=
| Normal (a : A)
| Throw (e : error).
Arguments Throw {A} e.

(** ** A reference edit distance

    [leven] is external; the examples at the end of the file instantiate it
    with the Levenshtein distance, computed row by row.  [lev_row a t prev
    diag left] fills the cells of columns 1.. of the row of character [a]:
    [prev] is the row above from the same column on, [diag] the cell above
    to the left and [left] the cell just filled. *)

Fixpoint lev_row (a : ascii) (t : string) (prev : list nat) (diag left : nat)
  : list nat :=
  match t, prev with
  | String b t', up :: prev' =>
      let cost := if Ascii.eqb a b then 0 else 1 in
      let cur := Nat.min (Nat.min (up + 1) (left + 1)) (diag + cost) in
      cur :: lev_row a t' prev' up cur
  | _, _ => []
  end.

Fixpoint lev_rows (s t : string) (col0 : nat) (row : list nat) : nat :=
  match s with
  | EmptyString => last row col0
  | String a s' => lev_rows s' t (col0 + 1) (lev_row a t row col0 (col0 + 1))
  end.

Definition levenshtein (s t : string) : nat :=
  lev_rows s t 0 (seq 1 (String.length t)).

Section OptionsNormalizer.

#[local] Set Default Proof Using "Type".

(** The logger is an object of the caller, known only by its identity. *)
Variable Logger : Type.

Inductive event : Type :=
| LoggerWarn (l : Logger) (msg : string).

Definition M (A : Type) : Type := (completion A * list event)%type.

Definition ret {A} (a : A) : M A := (Normal a, []).
Definition throw {A} (e : error) : M A := (Throw e, []).
Definition bind {A B} (m : M A) (f : A -> M B) : M B :=
  match m with
  | (Normal a, t) => let (r, t') := f a in (r, (t ++ t')%list)
  | (Throw e, t) => (Throw e, t)
  end.
Definition logger_warn (l : Logger) (msg : string) : M unit :=
  (Normal tt, [LoggerWarn l msg]).

Notation "x <- m ;; k" := (bind m (fun x => k))
  (at level 100, m at next level, right associativity).

(** Monadic [Array.prototype.map]: left to right, up to the first throw. *)
Fixpoint mapM {A B} (f : A -> M B) (l : list A) : M (list B) :=
  match l with
  | [] => ret []
  | x :: rest => y <- f x ;; ys <- mapM f rest ;; ret (y :: ys)
  end.

(** ** JavaScript values

    Option values are plain data.  Numbers are IEEE doubles: their type,
    their truthiness ([false] for [0], [-0] and [NaN]) and their string
    conversion are kept abstract. *)

Variable number : Type.
Variable number_truthy : number -> bool.
Variable Number_toString : number -> string.

Inductive jsval : Type :=
| JUndefined
| JNull
| JBool (b : bool)
| JNumber (n : number)
| JString (s : string)
| JArray (elems : list jsval)
| JObject (props : list (string * jsval)).

(** [Number(value)], the conversion used for CLI integers. *)
Variable Number : jsval -> number.

(** ToBoolean. *)
Definition truthy (v : jsval) : bool :=
  match v with
  | JUndefined | JNull => false
  | JBool b => b
  | JNumber n => number_truthy n
  | JString s => negb (String.length s =? 0)%nat
  | JArray _ | JObject _ => true
  end.

(** [a || b] *)
Definition js_or (a b : jsval) : jsval := if truthy a then a else b.

(** ToString, as a template literal applies it.  An array joins its
    elements with commas, [undefined] and [null] elements giving the empty
    string; a plain object gives ["[object Object]"]. *)
Fixpoint ToString (v : jsval) : string :=
  match v with
  | JUndefined => "undefined"
  | JNull => "null"
  | JBool true => "true"
  | JBool false => "false"
  | JNumber n => Number_toString n
  | JString s => s
  | JArray elems =>
      (fix join (l : list jsval) : string :=
         match l with
         | [] => ""
         | x :: rest =>
             let sx := match x with
                       | JUndefined | JNull => ""
                       | _ => ToString x
                       end in
             match rest with
             | [] => sx
             | _ :: _ => sx ++ "," ++ join rest
             end
         end) elems
  | JObject _ => "[object Object]"
  end.

(** Property read [o.k] on a plain object, [undefined] when absent. *)
Fixpoint get_property (props : list (string * jsval)) (k : string) : jsval :=
  match props with
  | [] => JUndefined
  | (k', v) :: rest => if String.eqb k' k then v else get_property rest k
  end.

(** Property write [o.k = v]: an existing key keeps its place, a new one
    goes last. *)
Fixpoint set_property (props : list (string * jsval)) (k : string) (v : jsval)
  : list (string * jsval) :=
  match props with
  | [] => [(k, v)]
  | (k', v') :: rest =>
      if String.eqb k' k then (k', v) :: rest
      else (k', v') :: set_property rest k v
  end.

(** ** Descriptor strategies (lines 7-18) *)

Record Descriptor : Type := {
  key : string -> string;
  value : jsval -> string;
  pair : string -> jsval -> string
}.

(** [vnopts.apiDescriptor] *)
Variable apiDescriptor : Descriptor.

Definition cliDescriptor_key (key : string) : string :=
  if (String.length key =? 1)%nat then "-" ++ key else "--" ++ key.

Definition cliDescriptor_value (v : jsval) : string := value apiDescriptor v.

(** [value === false], [value === true], [value === ""] *)
Definition is_false (v : jsval) : bool :=
  match v with JBool false => true | _ => false end.
Definition is_true (v : jsval) : bool :=
  match v with JBool true => true | _ => false end.
Definition is_empty_string (v : jsval) : bool :=
  match v with JString s => String.eqb s "" | _ => false end.

Definition cliDescriptor_pair (key : string) (v : jsval) : string :=
  if is_false v then "--no-" ++ key
  else if is_true v then cliDescriptor_key key
  else if is_empty_string v then cliDescriptor_key key ++ " without an argument"
  else cliDescriptor_key key ++ "=" ++ ToString v.

Definition cliDescriptor : Descriptor :=
  {| key := cliDescriptor_key;
     value := cliDescriptor_value;
     pair := cliDescriptor_pair |}.

(** ** Flag schema (lines 20-47) *)

Variable leven : string -> string -> nat.
Variable chalk_yellow chalk_blue : string -> string.

(** The [utils] the engine passes to the hooks of a schema. *)
Record Utils : Type := {
  logger : Logger;
  descriptor : Descriptor
}.

(** [Array.prototype.sort] without a comparator orders strings by their
    code units; as equal strings are identical the result does not depend
    on the sorting algorithm.  Insertion sort stands for it. *)
Fixpoint insert (s : string) (l : list string) : list string :=
  match l with
  | [] => [s]
  | x :: rest => if String.leb s x then s :: l else x :: insert s rest
  end.

Definition sort (l : list string) : list string := fold_right insert [] l.

(** [Array.prototype.indexOf] on strings: the first index, or [-1]. *)
Fixpoint indexOf (l : list string) (x : string) : Z :=
  match l with
  | [] => (-1)%Z
  | y :: rest =>
      if String.eqb y x then 0%Z
      else let i := indexOf rest x in
           if (i =? -1)%Z then (-1)%Z else (i + 1)%Z
  end.

(** An instance of [class FlagSchema extends vnopts.ChoiceSchema]:
    [super({ name, choices: flags })] keeps the list as given, [_flags] is
    the sorted copy.  [FlagSchema_constructor] is the instance once [super]
    has returned; whether [super] throws is the engine's matter, see
    [constructor_error] below. *)
Record FlagSchemaInstance : Type := {
  flag_name : string;
  flag_choices : list string;
  _flags : list string
}.

Definition FlagSchema_constructor (name : string) (flags : list string)
  : FlagSchemaInstance :=
  {| flag_name := name; flag_choices := flags; _flags := sort flags |}.

(** The result of [Array.prototype.find] as a value. *)
Definition found (o : option string) : jsval :=
  match o with Some s => JString s | None => JUndefined end.

Definition unknown_flag_message (utils : Utils) (v suggestion : jsval)
  : string :=
  String.concat " "
    [ "Unknown flag " ++ chalk_yellow (value (descriptor utils) v) ++ ",";
      "did you mean " ++ chalk_blue (value (descriptor utils) suggestion)
        ++ "?" ].

Definition preprocess (this : FlagSchemaInstance) (v : jsval) (utils : Utils)
  : M jsval :=
  match v with
  | JString s =>
      if negb (String.length s =? 0)%nat && (indexOf (_flags this) s =? -1)%Z
      then
        let suggestion :=
          found (find (fun flag => (leven flag s <? 3)%nat) (_flags this)) in
        if truthy suggestion then
          _ <- logger_warn (logger utils)
                 (unknown_flag_message utils v suggestion) ;;
          ret suggestion
        else ret v
      else ret v
  | _ => ret v
  end.

Definition expected (this : FlagSchemaInstance) : string := "a flag".

(** ** Descriptors and schemas (lines 66-171) *)

(** The schema handed to a [validate] override: the instance of the engine's
    class, seen through its own [validate] method. *)
Record Schema : Type := {
  validate : jsval -> Utils -> jsval
}.

Record RedirectInfo : Type := {
  redirect_option : jsval;
  redirect_value : jsval
}.

(** An option descriptor.  A property that is only tested for truthiness, or
    whose shape the code inspects, is a value ([JUndefined] when absent). *)
Record OptionInfo : Type := {
  name : string;
  type : jsval;
  array : jsval;
  alias : option string;
  choices : jsval;
  description : jsval;
  oppositeDescription : jsval;
  exception : option (jsval -> jsval);
  redirect : option RedirectInfo;
  deprecated : jsval
}.

Inductive SchemaConstructor : Type :=
| AnySchema | AliasSchema | ArraySchema
| IntegerSchema | ChoiceSchema | BooleanSchema | FlagSchema | StringSchema.

(** The object literal given to [create]: every property the module ever
    sets, [None] when the object does not have it. *)
Record parameters_ (S : Type) : Type := {
  param_name : option string;
  param_sourceName : option string;
  param_preprocess : option (jsval -> jsval);
  param_choices : option (list jsval);
  param_flags : option (list string);
  param_validate : option (jsval -> Schema -> Utils -> jsval);
  param_redirect : option (jsval -> jsval);
  param_deprecated : option bool;
  param_valueSchema : option S
}.

(** A schema is the record of the call [C.create(p)] that made it; whether
    the call returns is settled by [engine_create] below. *)
Inductive schema : Type :=
| create (C : SchemaConstructor) (p : parameters_ schema).

Definition parameters : Type := parameters_ schema.

(** [{}] *)
Definition empty : parameters :=
  {| param_name := None; param_sourceName := None; param_preprocess := None;
     param_choices := None; param_flags := None; param_validate := None;
     param_redirect := None; param_deprecated := None;
     param_valueSchema := None |}.

Definition orElse {A} (a b : option A) : option A :=
  match a with Some _ => a | None => b end.

(** [Object.assign(target, source)]: the properties of [source] win. *)
Definition assign (target source : parameters) : parameters :=
  {| param_name := orElse (param_name source) (param_name target);
     param_sourceName :=
       orElse (param_sourceName source) (param_sourceName target);
     param_preprocess :=
       orElse (param_preprocess source) (param_preprocess target);
     param_choices := orElse (param_choices source) (param_choices target);
     param_flags := orElse (param_flags source) (param_flags target);
     param_validate := orElse (param_validate source) (param_validate target);
     param_redirect := orElse (param_redirect source) (param_redirect target);
     param_deprecated :=
       orElse (param_deprecated source) (param_deprecated target);
     param_valueSchema :=
       orElse (param_valueSchema source) (param_valueSchema target) |}.

(** Single-property object literals. *)
Definition obj_name (n : string) : parameters :=
  {| param_name := Some n; param_sourceName := None; param_preprocess := None;
     param_choices := None; param_flags := None; param_validate := None;
     param_redirect := None; param_deprecated := None;
     param_valueSchema := None |}.
Definition obj_sourceName (n : string) : parameters :=
  {| param_name := None; param_sourceName := Some n; param_preprocess := None;
     param_choices := None; param_flags := None; param_validate := None;
     param_redirect := None; param_deprecated := None;
     param_valueSchema := None |}.
Definition obj_preprocess (f : jsval -> jsval) : parameters :=
  {| param_name := None; param_sourceName := None; param_preprocess := Some f;
     param_choices := None; param_flags := None; param_validate := None;
     param_redirect := None; param_deprecated := None;
     param_valueSchema := None |}.
Definition obj_choices (l : list jsval) : parameters :=
  {| param_name := None; param_sourceName := None; param_preprocess := None;
     param_choices := Some l; param_flags := None; param_validate := None;
     param_redirect := None; param_deprecated := None;
     param_valueSchema := None |}.
Definition obj_flags (l : list string) : parameters :=
  {| param_name := None; param_sourceName := None; param_preprocess := None;
     param_choices := None; param_flags := Some l; param_validate := None;
     param_redirect := None; param_deprecated := None;
     param_valueSchema := None |}.
Definition obj_validate (f : jsval -> Schema -> Utils -> jsval) : parameters :=
  {| param_name := None; param_sourceName := None; param_preprocess := None;
     param_choices := None; param_flags := None; param_validate := Some f;
     param_redirect := None; param_deprecated := None;
     param_valueSchema := None |}.
Definition obj_redirect (f : jsval -> jsval) : parameters :=
  {| param_name := None; param_sourceName := None; param_preprocess := None;
     param_choices := None; param_flags := None; param_validate := None;
     param_redirect := Some f; param_deprecated := None;
     param_valueSchema := None |}.
Definition obj_deprecated (b : bool) : parameters :=
  {| param_name := None; param_sourceName := None; param_preprocess := None;
     param_choices := None; param_flags := None; param_validate := None;
     param_redirect := None; param_deprecated := Some b;
     param_valueSchema := None |}.
Definition obj_valueSchema (s : schema) : parameters :=
  {| param_name := None; param_sourceName := None; param_preprocess := None;
     param_choices := None; param_flags := None; param_validate := None;
     param_redirect := None; param_deprecated := None;
     param_valueSchema := Some s |}.

(** The constructors of the engine's classes can reject the parameters
    they are given: the one of [vnopts.ChoiceSchema] throws
    [Duplicate value ...] on a repeated choice.  [create_error C p] is what
    the constructor of the engine's class [C] throws on [p], if anything. *)
Variable create_error : SchemaConstructor -> parameters -> option error.

(** [{ name, choices: flags }], the object [FlagSchema]'s constructor
    passes to [super] (line 22). *)
Definition super_parameters (p : parameters) : parameters :=
  assign
    (match param_name p with Some n => obj_name n | None => empty end)
    (match param_flags p with
     | Some flags => obj_choices (map JString flags)
     | None => empty
     end).

(** What [new C(p)] throws: [FlagSchema] is the class of this module and
    throws what [super], the constructor of [ChoiceSchema], throws. *)
Definition constructor_error (C : SchemaConstructor) (p : parameters)
  : option error :=
  match C with
  | FlagSchema => create_error ChoiceSchema (super_parameters p)
  | _ => create_error C p
  end.

(** [C.create(p)] *)
Definition engine_create (C : SchemaConstructor) (p : parameters) : M schema :=
  match constructor_error C p with
  | Some e => throw e
  | None => ret (create C p)
  end.

(** [optionInfo.type === t] *)
Definition type_is (v : jsval) (t : string) : bool :=
  match v with JString s => String.eqb s t | _ => false end.

Definition is_undefined (v : jsval) : bool :=
  match v with JUndefined => true | _ => false end.

(** Truthiness of an optional string property. *)
Definition truthy_string (o : option string) : bool :=
  match o with Some s => truthy (JString s) | None => false end.

(** The callback of [optionInfo.choices.map] (lines 104-111).  [typeof] is
    ["object"] for [null], arrays and plain objects; reading [redirect] off
    [null] throws, an array has no such property. *)
Definition rewrite_choice (optionInfo : OptionInfo) (choiceInfo : jsval)
  : M jsval :=
  match choiceInfo with
  | JNull => throw (TypeError "Cannot read property 'redirect' of null")
  | JObject props =>
      if truthy (get_property props "redirect") then
        ret (JObject
               (set_property props "redirect"
                  (JObject
                     [("to",
                       JObject [("key", JString (name optionInfo));
                                ("value", get_property props "redirect")])])))
      else ret choiceInfo
  | _ => ret choiceInfo
  end.

(** [optionInfo.choices.map(...)]: only an array has [map]. *)
Definition map_choices (optionInfo : OptionInfo) : M (list jsval) :=
  match choices optionInfo with
  | JArray l => mapM (rewrite_choice optionInfo) l
  | JUndefined => throw (TypeError "Cannot read property 'map' of undefined")
  | JNull => throw (TypeError "Cannot read property 'map' of null")
  | _ => throw (TypeError "optionInfo.choices.map is not a function")
  end.

(** The callback of [optionInfos.map] (lines 120-126): each argument of
    [[].concat] is a string or the empty array. *)
Definition flags_of (optionInfo : OptionInfo) : list string :=
  ((match alias optionInfo with
    | Some a => if truthy (JString a) then [a] else []
    | None => []
    end)
   ++ (if truthy (description optionInfo) then [name optionInfo] else [])
   ++ (if truthy (oppositeDescription optionInfo)
       then [("no-" ++ name optionInfo)%string] else []))%list.

(** [optionInfos.map(...).reduce((a, b) => a.concat(b), [])] *)
Definition collect_flags (optionInfos : list OptionInfo) : list string :=
  fold_left (fun a b => (a ++ b)%list) (map flags_of optionInfos) [].

(** [[].concat(v)] *)
Definition concat_value (v : jsval) : jsval :=
  match v with JArray l => JArray l | _ => JArray [v] end.

Definition redirect_handler (r : RedirectInfo) (v : jsval) : jsval :=
  if negb (truthy v) then JUndefined
  else JObject [("to", JObject [("key", redirect_option r);
                                ("value", redirect_value r)])].

(** [optionInfoToSchema] runs in four steps, each a definition below: the
    [switch] on the type, the [validate] override, the handlers and the
    final [create]. *)

(** Lines 94-134: the constructor and the parameters the [switch] leaves. *)
Definition switch_type (optionInfo : OptionInfo) (isCLI : jsval)
  (optionInfos : list OptionInfo) : M (SchemaConstructor * parameters) :=
  let parameters := obj_name (name optionInfo) in
  if type_is (type optionInfo) "int" then
    ret (IntegerSchema,
         if truthy isCLI
         then assign parameters (obj_preprocess (fun v => JNumber (Number v)))
         else parameters)
  else if type_is (type optionInfo) "choice" then
    cs <- map_choices optionInfo ;;
    ret (ChoiceSchema, assign parameters (obj_choices cs))
  else if type_is (type optionInfo) "boolean" then
    ret (BooleanSchema, parameters)
  else if type_is (type optionInfo) "flag" then
    ret (FlagSchema, assign parameters (obj_flags (collect_flags optionInfos)))
  else if type_is (type optionInfo) "path" then
    ret (StringSchema, parameters)
  else
    throw (Error ("Unexpected type " ++ ToString (type optionInfo))).

(** Lines 136-144: [parameters.validate = ...]. *)
Definition set_validate (optionInfo : OptionInfo) (p : parameters)
  : parameters :=
  let parameters := p in
  match exception optionInfo with
  | Some exception =>
      assign parameters
        (obj_validate (fun v schema utils =>
           js_or (exception v) (validate schema v utils)))
  | None =>
      assign parameters
        (obj_validate (fun v schema utils =>
           js_or (JBool (is_undefined v)) (validate schema v utils)))
  end.

(** Lines 146-160: the [handlers] object. *)
Definition make_handlers (optionInfo : OptionInfo) : parameters :=
  let handlers := empty in
  let handlers :=
    match redirect optionInfo with
    | Some r => assign handlers (obj_redirect (redirect_handler r))
    | None => handlers
    end in
  if truthy (deprecated optionInfo)
  then assign handlers (obj_deprecated true)
  else handlers.

(** Lines 162-170: the schema returned.  For an array the value schema is
    created first, as an argument of [Object.assign]. *)
Definition create_schema (optionInfo : OptionInfo) (isCLI : jsval)
  (C : SchemaConstructor) (parameters handlers : parameters_ schema)
  : M schema :=
  let SchemaConstructor := C in
  if truthy (array optionInfo)
  then valueSchema <- engine_create SchemaConstructor parameters ;;
       engine_create ArraySchema
         (assign
            (assign
               (if truthy isCLI then obj_preprocess concat_value else empty)
               handlers)
            (obj_valueSchema valueSchema))
  else engine_create SchemaConstructor
         (assign (assign empty parameters) handlers).

Definition optionInfoToSchema (optionInfo : OptionInfo) (isCLI : jsval)
  (optionInfos : list OptionInfo) : M schema :=
  cp <- switch_type optionInfo isCLI optionInfos ;;
  let SchemaConstructor := fst cp in
  let parameters := set_validate optionInfo (snd cp) in
  let handlers := make_handlers optionInfo in
  create_schema optionInfo isCLI SchemaConstructor parameters handlers.

(** Lines 76-83: the alias schema pushed after the schema of a descriptor. *)
Definition push_alias (optionInfo : OptionInfo) (isCLI : jsval)
  (schemas : list schema) : M (list schema) :=
  match alias optionInfo with
  | Some a =>
      if truthy (JString a) && truthy isCLI
      then s <- engine_create AliasSchema
                  (assign (obj_name a) (obj_sourceName (name optionInfo))) ;;
           ret (schemas ++ [s])%list
      else ret schemas
  | None => ret schemas
  end.

(** The loop of lines 73-84, [schemas] being the array pushed onto. *)
Fixpoint push_schemas (rest : list OptionInfo) (isCLI : jsval)
  (optionInfos : list OptionInfo) (schemas : list schema) : M (list schema) :=
  match rest with
  | [] => ret schemas
  | optionInfo :: rest' =>
      s <- optionInfoToSchema optionInfo isCLI optionInfos ;;
      let schemas := (schemas ++ [s])%list in
      schemas <- push_alias optionInfo isCLI schemas ;;
      push_schemas rest' isCLI optionInfos schemas
  end.

Definition optionInfosToSchemas (optionInfos : list OptionInfo) (isCLI : jsval)
  : M (list schema) :=
  let schemas := [] in
  schemas <-
    (if truthy isCLI
     then s <- engine_create AnySchema (obj_name "_") ;;
          ret (schemas ++ [s])%list
     else ret schemas) ;;
  push_schemas optionInfos isCLI optionInfos schemas.

(** ** The normalizer (lines 49-64 and 173-183) *)

Definition Options : Type := list (string * jsval).

Definition UnknownHandler : Type := string -> jsval -> Utils -> M jsval.

(** The third argument of [vnopts.normalize]. *)
Record EngineOptions : Type := {
  engine_logger : option Logger;
  engine_unknown : UnknownHandler;
  engine_descriptor : Descriptor
}.

Variable levenUnknownHandler : UnknownHandler.
Variable normalize : Options -> list schema -> EngineOptions -> M jsval.

(** The settings object: [None] for a property the object does not own. *)
Record Settings : Type := {
  settings_logger : option Logger;
  settings_isCLI : option jsval;
  settings_passThrough : option jsval
}.

(** A destructuring default applies when the property reads [undefined]. *)
Definition default_to (d : jsval) (o : option jsval) : jsval :=
  match o with
  | None | Some JUndefined => d
  | Some v => v
  end.

(** [passThrough.indexOf(key) === -1] for a string [key]: strict equality
    only finds the same string. *)
Definition not_listed (elems : list jsval) (key : string) : bool :=
  negb (existsb (fun v => type_is v key) elems).

Definition unknown_handler (passThrough : jsval) : UnknownHandler :=
  if negb (truthy passThrough) then levenUnknownHandler
  else match passThrough with
       | JArray elems =>
           fun key value _ =>
             ret (if not_listed elems key then JUndefined
                  else JObject [(key, value)])
       | _ => fun key value _ => ret (JObject [(key, value)])
       end.

Definition normalizeOptions (options : Options) (optionInfos : list OptionInfo)
  (opts : option Settings) : M jsval :=
  let opts := match opts with
              | Some o => o
              | None => {| settings_logger := None; settings_isCLI := None;
                           settings_passThrough := None |}
              end in
  let logger := settings_logger opts in
  let isCLI := default_to (JBool false) (settings_isCLI opts) in
  let passThrough := default_to (JBool false) (settings_passThrough opts) in
  let unknown := unknown_handler passThrough in
  let descriptor := if truthy isCLI then cliDescriptor else apiDescriptor in
  schemas <- optionInfosToSchemas optionInfos isCLI ;;
  normalize options schemas
    {| engine_logger := logger; engine_unknown := unknown;
       engine_descriptor := descriptor |}.

Definition normalizeApiOptions (options : Options)
  (optionInfos : list OptionInfo) (opts : option Settings) : M jsval :=
  normalizeOptions options optionInfos opts.

(** [Object.assign({ isCLI: true }, opts)]: an [undefined] source is
    skipped, an own [isCLI] of [opts] replaces the [true]. *)
Definition assign_isCLI_true (opts : option Settings) : Settings :=
  match opts with
  | None => {| settings_logger := None; settings_isCLI := Some (JBool true);
               settings_passThrough := None |}
  | Some o => {| settings_logger := settings_logger o;
                 settings_isCLI :=
                   orElse (settings_isCLI o) (Some (JBool true));
                 settings_passThrough := settings_passThrough o |}
  end.

Definition normalizeCliOptions (options : Options)
  (optionInfos : list OptionInfo) (opts : option Settings) : M jsval :=
  normalizeOptions options optionInfos (Some (assign_isCLI_true opts)).

(** ** The vocabulary of the specification *)

(** The order of [sort]. *)
Definition string_le (a b : string) : Prop := String.leb a b = true.

(** A known flag at distance strictly less than 3 from [s]. *)
Definition close_match (flags : list string) (s f : string) : Prop :=
  In f flags /\ leven f s < 3.

(** The first such flag in sorted order: no close match sorts before it. *)
Definition first_close_match (flags : list string) (s f : string) : Prop :=
  close_match flags s f /\
  forall g, close_match flags s g -> String.leb f g = true.

(** The five recognized kinds. *)
Definition recognized (d : OptionInfo) : Prop :=
  type d = JString "int" \/ type d = JString "choice" \/
  type d = JString "boolean" \/ type d = JString "flag" \/
  type d = JString "path".

(** A choice descriptor carries its [choices] as a sequence without [null]
    entries. *)
Definition choices_listed (d : OptionInfo) : Prop :=
  type d = JString "choice" ->
  exists l, choices d = JArray l /\ ~ In JNull l.

(** A descriptor declares a property when the property is truthy; an alias
    is present under the same test. *)
Definition declares (v : jsval) : bool := truthy v.

Definition flag_names (d : OptionInfo) : list string :=
  ((if truthy_string (alias d) then
      match alias d with Some a => [a] | None => [] end
    else [])
   ++ (if declares (description d) then [name d] else [])
   ++ (if declares (oppositeDescription d)
       then [("no-" ++ name d)%string] else []))%list.

(** The flag universe of a descriptor list: the contributions of all the
    descriptors, in order, as one flat list. *)
Definition flag_universe (optionInfos : list OptionInfo) : list string :=
  List.concat (map flag_names optionInfos).

(** The schema that validates one value of the option: the schema itself,
    or the [valueSchema] of an array schema. *)
Definition element_schema (s : schema) : schema :=
  match s with
  | create _ p =>
      match param_valueSchema p with Some vs => vs | None => s end
  end.

(** The settings as [normalizeOptions] destructures them. *)
Definition isCLI_of (opts : option Settings) : jsval :=
  match opts with
  | Some o => default_to (JBool false) (settings_isCLI o)
  | None => JBool false
  end.

Definition passThrough_of (opts : option Settings) : jsval :=
  match opts with
  | Some o => default_to (JBool false) (settings_passThrough o)
  | None => JBool false
  end.

Definition logger_of (opts : option Settings) : option Logger :=
  match opts with Some o => settings_logger o | None => None end.

(** Whether the settings object has an [isCLI] property of its own. *)
Definition owns_isCLI (opts : option Settings) : bool :=
  match opts with
  | Some o => match settings_isCLI o with Some _ => true | None => false end
  | None => false
  end.

(** The settings with [isCLI] fixed to [b], everything else kept. *)
Definition fix_isCLI (b : bool) (opts : option Settings) : option Settings :=
  Some {| settings_logger := logger_of opts;
          settings_isCLI := Some (JBool b);
          settings_passThrough :=
            match opts with Some o => settings_passThrough o | None => None end
       |}.

(** A probe for the engine: it answers with the names of the schemas it is
    given, which tells a CLI schema list (led by ["_"]) from an API one. *)
Definition schema_name (s : schema) : jsval :=
  match s with
  | create _ p =>
      match param_name p with Some n => JString n | None => JUndefined end
  end.

Definition probe_normalize (options : Options) (schemas : list schema)
  (eo : EngineOptions) : M jsval :=
  ret (JArray (map schema_name schemas)).

(** ** Vocabulary for the further properties *)

(** The schema [optionInfoToSchema] returns when the engine's constructors
    accept the parameters: the record of the calls of lines 162-170. *)
Definition returned_schema (optionInfo : OptionInfo) (isCLI : jsval)
  (C : SchemaConstructor) (parameters handlers : parameters_ schema)
  : schema :=
  if truthy (array optionInfo)
  then create ArraySchema
         (assign
            (assign
               (if truthy isCLI then obj_preprocess concat_value else empty)
               handlers)
            (obj_valueSchema (create C parameters)))
  else create C (assign (assign empty parameters) handlers).

(** An error thrown by a constructor of the engine. *)
Definition rejected (e : error) : Prop :=
  exists C p, create_error C p = Some e.

(** In CLI mode the engine accepts the catch-all schema. *)
Definition starts (isCLI : jsval) : Prop :=
  truthy isCLI = true -> constructor_error AnySchema (obj_name "_") = None.

(** The schema of descriptor [d] is built and, in CLI mode with a truthy
    alias, the engine accepts its alias schema. *)
Definition builds (isCLI : jsval) (optionInfos : list OptionInfo)
  (d : OptionInfo) : Prop :=
  (exists s, optionInfoToSchema d isCLI optionInfos = (Normal s, [])) /\
  (forall a, alias d = Some a -> truthy (JString a) && truthy isCLI = true ->
     constructor_error AliasSchema
       (assign (obj_name a) (obj_sourceName (name d))) = None).

(** A sample of the engine's constructors for the examples: like vnopts it
    rejects a second choice with the same string value (the [value] of an
    object choice, or the choice itself), and accepts everything else. *)
Definition choice_value (c : jsval) : option string :=
  match c with
  | JString s => Some s
  | JObject props =>
      match get_property props "value" with
      | JString s => Some s
      | _ => None
      end
  | _ => None
  end.

Fixpoint first_repeat (seen : list string) (l : list jsval) : option string :=
  match l with
  | [] => None
  | c :: rest =>
      match choice_value c with
      | Some v =>
          if existsb (String.eqb v) seen then Some v
          else first_repeat (v :: seen) rest
      | None => first_repeat seen rest
      end
  end.

Definition quote : string := String (ascii_of_nat 34) EmptyString.

Definition reject_repeats (C : SchemaConstructor) (p : parameters)
  : option error :=
  match C, param_choices p with
  | ChoiceSchema, Some l =>
      match first_repeat [] l with
      | Some v => Some (Error ("Duplicate value " ++ quote ++ v ++ quote))
      | None => None
      end
  | _, _ => None
  end.

Definition schema_constructor (s : schema) : SchemaConstructor :=
  match s with create C _ => C end.

Definition schema_parameters (s : schema) : parameters :=
  match s with create _ p => p end.

(** The name carried by the schema that validates one value. *)
Definition element_name (s : schema) : option string :=
  param_name (schema_parameters (element_schema s)).

(** The alias schema a descriptor contributes: in CLI mode, for a truthy
    alias. *)
Definition alias_schemas (isCLI : jsval) (d : OptionInfo) : list schema :=
  match alias d with
  | Some a =>
      if truthy (JString a) && truthy isCLI
      then [create AliasSchema (assign (obj_name a) (obj_sourceName (name d)))]
      else []
  | None => []
  end.

(** The redirect the engine expects on a choice: [{to: {key, value}}]. *)
Definition redirect_target (d : OptionInfo) (r : jsval) : jsval :=
  JObject [("to", JObject [("key", JString (name d)); ("value", r)])].

(** How a choice [c] of descriptor [d] reaches the engine as [c']: an
    object with a truthy [redirect] keeps its keys, in order, and every
    property but [redirect], which becomes the redirect target; anything
    else is passed as it is. *)
Definition choice_rewritten (d : OptionInfo) (c c' : jsval) : Prop :=
  match c with
  | JObject props =>
      if truthy (get_property props "redirect") then
        exists props',
          c' = JObject props' /\
          map fst props' = map fst props /\
          get_property props' "redirect" =
            redirect_target d (get_property props "redirect") /\
          forall k, k <> "redirect" ->
            get_property props' k = get_property props k
      else c' = c
  | _ => c' = c
  end.

(** ** Auxiliary facts *)

Lemma bind_ret_l A B (a : A) (f : A -> M B) : bind (ret a) f = f a.
Proof. unfold bind, ret. destruct (f a) as [r t]. reflexivity. Qed.

Lemma bind_pure A B (a : A) (f : A -> M B) : bind (Normal a, []) f = f a.
Proof. apply bind_ret_l. Qed.

Lemma bind_throw A B (e : error) (f : A -> M B) : bind (throw e) f = throw e.
Proof. reflexivity. Qed.

Lemma bind_normal_nil A B (m : M A) (a : A) (f : A -> M B) :
  m = (Normal a, []) -> bind m f = f a.
Proof. intros ->. apply bind_ret_l. Qed.

Lemma bind_normal_inv A B (m : M A) (f : A -> M B) (b : B) (t : list event) :
  bind m f = (Normal b, t) ->
  exists a t1 t2,
    m = (Normal a, t1) /\ f a = (Normal b, t2) /\ t = (t1 ++ t2)%list.
Proof.
  destruct m as [[a|e] t1]; simpl; [|discriminate].
  destruct (f a) as [r t2] eqn:E. intros H. injection H as -> <-.
  exists a, t1, t2. repeat split. exact E.
Qed.

Lemma bind_trace_nil A B (m : M A) (f : A -> M B) :
  snd m = [] -> (forall a, snd (f a) = []) -> snd (bind m f) = [].
Proof.
  destruct m as [[a|e] t]; simpl; intros -> H; [|reflexivity].
  specialize (H a). destruct (f a) as [r t']. simpl in *. exact H.
Qed.

Lemma bind_throw_inv A B (m : M A) (f : A -> M B) (e : error)
  (t : list event) :
  bind m f = (Throw e, t) ->
  m = (Throw e, t) \/
  exists a t1 t2,
    m = (Normal a, t1) /\ f a = (Throw e, t2) /\ t = (t1 ++ t2)%list.
Proof.
  destruct m as [[a|e'] t1]; simpl.
  - destruct (f a) as [r t2] eqn:E. intros H. injection H as -> <-.
    right. exists a, t1, t2. repeat split. exact E.
  - intros H. injection H as -> ->. left. reflexivity.
Qed.

Lemma bind_ext A B (m : M A) (f g : A -> M B) :
  (forall a, f a = g a) -> bind m f = bind m g.
Proof.
  intros H. destruct m as [[a|e] t]; simpl; [rewrite H|]; reflexivity.
Qed.

(** *** The order of [sort] *)

Lemma ascii_compare_refl (c : ascii) : Ascii.compare c c = Eq.
Proof. unfold Ascii.compare. apply N.compare_refl. Qed.

Lemma ascii_compare_lt_trans (a b c : ascii) :
  Ascii.compare a b = Lt -> Ascii.compare b c = Lt -> Ascii.compare a c = Lt.
Proof.
  unfold Ascii.compare. rewrite !N.compare_lt_iff. apply N.lt_trans.
Qed.

Lemma string_leb_refl (s : string) : String.leb s s = true.
Proof.
  unfold String.leb.
  assert (H : String.compare s s = Eq).
  { induction s as [|c s IH]; simpl; [reflexivity|].
    rewrite ascii_compare_refl. exact IH. }
  rewrite H. reflexivity.
Qed.

Lemma string_leb_empty (s : string) : String.leb "" s = true.
Proof. destruct s; reflexivity. Qed.

Lemma string_leb_trans (a b c : string) :
  String.leb a b = true -> String.leb b c = true -> String.leb a c = true.
Proof.
  revert b c. induction a as [|x a IH]; intros b c Hab Hbc.
  - apply string_leb_empty.
  - destruct b as [|y b]; [discriminate Hab|].
    destruct c as [|z c]; [discriminate Hbc|].
    unfold String.leb in *. simpl in *.
    destruct (Ascii.compare x y) eqn:Exy; try discriminate Hab;
      destruct (Ascii.compare y z) eqn:Eyz; try discriminate Hbc.
    + apply Ascii.compare_eq_iff in Exy. subst y. rewrite Eyz.
      apply (IH b c); assumption.
    + apply Ascii.compare_eq_iff in Exy. subst y. rewrite Eyz. reflexivity.
    + apply Ascii.compare_eq_iff in Eyz. subst z. rewrite Exy. reflexivity.
    + rewrite (ascii_compare_lt_trans _ _ _ Exy Eyz). reflexivity.
Qed.

Lemma insert_perm (s : string) (l : list string) :
  Permutation (s :: l) (insert s l).
Proof.
  induction l as [|x l IH]; simpl.
  - apply Permutation_refl.
  - destruct (String.leb s x).
    + apply Permutation_refl.
    + eapply perm_trans; [apply perm_swap|]. apply perm_skip. exact IH.
Qed.

Lemma sort_perm (l : list string) : Permutation l (sort l).
Proof.
  induction l as [|x l IH]; simpl.
  - apply perm_nil.
  - eapply perm_trans; [apply perm_skip; exact IH|]. apply insert_perm.
Qed.

Lemma sort_In (l : list string) (x : string) : In x (sort l) <-> In x l.
Proof.
  split; intro H.
  - eapply Permutation_in; [apply Permutation_sym, sort_perm|exact H].
  - eapply Permutation_in; [apply sort_perm|exact H].
Qed.

Lemma insert_sorted (s : string) (l : list string) :
  StronglySorted string_le l -> StronglySorted string_le (insert s l).
Proof.
  induction 1 as [|x l Hl IH Hx]; simpl.
  - constructor; constructor.
  - destruct (String.leb s x) eqn:E.
    + constructor; [constructor; assumption|].
      constructor; [exact E|].
      rewrite Forall_forall in *. intros y Hy.
      eapply string_leb_trans; [exact E|]. apply Hx, Hy.
    + constructor; [exact IH|].
      rewrite Forall_forall in *. intros y Hy.
      apply (Permutation_in _ (Permutation_sym (insert_perm s l))) in Hy.
      destruct Hy as [<-|Hy]; [|apply Hx, Hy].
      destruct (String.leb_total s x) as [F|F]; [congruence|exact F].
Qed.

Lemma sort_sorted (l : list string) : StronglySorted string_le (sort l).
Proof.
  induction l as [|x l IH]; simpl; [constructor|].
  apply insert_sorted, IH.
Qed.

(** On a sorted list [find] answers with the least element that satisfies
    the test. *)
Lemma find_sorted_least (p : string -> bool) (l : list string) (f : string) :
  StronglySorted string_le l -> find p l = Some f ->
  forall g, In g l -> p g = true -> String.leb f g = true.
Proof.
  induction 1 as [|x l Hl IH Hx]; simpl; [discriminate|].
  intros Hf g Hg Hp. destruct (p x) eqn:E.
  - injection Hf as <-. destruct Hg as [<-|Hg].
    + apply string_leb_refl.
    + rewrite Forall_forall in Hx. apply Hx, Hg.
  - destruct Hg as [<-|Hg]; [congruence|]. apply IH; assumption.
Qed.

Lemma indexOf_lower (l : list string) (x : string) : (-1 <= indexOf l x)%Z.
Proof.
  induction l as [|y l IH]; simpl; [lia|].
  destruct (String.eqb y x); [lia|].
  destruct (indexOf l x =? -1)%Z; lia.
Qed.

Lemma indexOf_absent (l : list string) (x : string) :
  indexOf l x = (-1)%Z <-> ~ In x l.
Proof.
  induction l as [|y l IH]; simpl.
  - split; [intros _ []|reflexivity].
  - destruct (String.eqb y x) eqn:E.
    + apply String.eqb_eq in E. split; [discriminate|]. intros H. elim H. auto.
    + apply String.eqb_neq in E.
      destruct (indexOf l x =? -1)%Z eqn:F.
      * apply Z.eqb_eq in F. split; [|reflexivity].
        intros _ [H|H]; [contradiction|]. apply IH in F. contradiction.
      * apply Z.eqb_neq in F. pose proof (indexOf_lower l x).
        split; [intros H'; exfalso; lia|].
        intros H'. exfalso. apply F, IH. intros G. apply H'. right. exact G.
Qed.

Lemma nonempty_length (s : string) :
  s <> "" -> (String.length s =? 0)%nat = false.
Proof. destruct s; [congruence|reflexivity]. Qed.

Lemma find_close_match (flags : list string) (s f : string) :
  first_close_match flags s f ->
  find (fun flag => (leven flag s <? 3)%nat) (sort flags) = Some f.
Proof.
  intros [[Hin Hlt] Hleast].
  destruct (find (fun flag => (leven flag s <? 3)%nat) (sort flags))
    as [f'|] eqn:E.
  - pose proof (find_some _ _ E) as [Hin' Hlt'].
    rewrite sort_In in Hin'. apply Nat.ltb_lt in Hlt'.
    f_equal. apply String.leb_antisym.
    + apply (find_sorted_least _ (sort_sorted flags) E).
      * rewrite sort_In. exact Hin.
      * apply Nat.ltb_lt, Hlt.
    + apply Hleast. split; assumption.
  - assert (Hs : In f (sort flags)) by (rewrite sort_In; exact Hin).
    apply (find_none _ _ E) in Hs. apply Nat.ltb_ge in Hs. lia.
Qed.

Lemma find_no_close_match (flags : list string) (s : string) :
  (forall g, In g flags -> 3 <= leven g s) ->
  find (fun flag => (leven flag s <? 3)%nat) (sort flags) = None.
Proof.
  intros H.
  destruct (find (fun flag => (leven flag s <? 3)%nat) (sort flags))
    as [f|] eqn:E; [|reflexivity].
  apply find_some in E as [Hin Hlt].
  rewrite sort_In in Hin. apply H in Hin. apply Nat.ltb_lt in Hlt. lia.
Qed.

Lemma first_close_match_exists (flags : list string) (s g : string) :
  close_match flags s g -> exists f, first_close_match flags s f.
Proof.
  intros [Hin Hlt].
  destruct (find (fun flag => (leven flag s <? 3)%nat) (sort flags))
    as [f|] eqn:E.
  - exists f. pose proof (find_some _ _ E) as [Hf Hflt].
    rewrite sort_In in Hf. apply Nat.ltb_lt in Hflt.
    split; [split; assumption|].
    intros h [Hh Hhlt].
    apply (find_sorted_least _ (sort_sorted flags) E).
    + rewrite sort_In. exact Hh.
    + apply Nat.ltb_lt, Hhlt.
  - assert (Hs : In g (sort flags)) by (rewrite sort_In; exact Hin).
    apply (find_none _ _ E) in Hs. apply Nat.ltb_ge in Hs. lia.
Qed.

(** *** The steps of [optionInfoToSchema] *)

Lemma type_is_eq (v : jsval) (t : string) :
  type_is v t = true <-> v = JString t.
Proof.
  destruct v; simpl; try (split; [discriminate|discriminate]).
  rewrite String.eqb_eq. split; [intros ->; reflexivity|congruence].
Qed.






Lemma switch_type_bare (d : OptionInfo) (isCLI : jsval)
  (optionInfos : list OptionInfo) C p t :
  switch_type d isCLI optionInfos = (Normal (C, p), t) ->
  C <> ArraySchema /\
  param_validate p = None /\ param_redirect p = None /\
  param_deprecated p = None /\ param_valueSchema p = None.
Proof.
  unfold switch_type.
  destruct (type_is (type d) "int").
  { destruct (truthy isCLI); intros H; injection H as <- <- <-;
      repeat split; discriminate. }
  destruct (type_is (type d) "choice").
  { destruct (map_choices d) as [[cs|e] t']; simpl; [|discriminate].
    intros H; injection H as <- <- <-; repeat split; discriminate. }
  destruct (type_is (type d) "boolean").
  { intros H; injection H as <- <- <-; repeat split; discriminate. }
  destruct (type_is (type d) "flag").
  { intros H; injection H as <- <- <-; repeat split; discriminate. }
  destruct (type_is (type d) "path").
  { intros H; injection H as <- <- <-; repeat split; discriminate. }
  discriminate.
Qed.

Lemma switch_type_flag (d : OptionInfo) (isCLI : jsval)
  (optionInfos : list OptionInfo) :
  type d = JString "flag" ->
  switch_type d isCLI optionInfos =
    (Normal (FlagSchema,
             assign (obj_name (name d))
               (obj_flags (collect_flags optionInfos))),
     []).
Proof. intros H. unfold switch_type. rewrite H. reflexivity. Qed.

Lemma constructor_error_rejected (C : SchemaConstructor) (p : parameters)
  (e : error) :
  constructor_error C p = Some e -> rejected e.
Proof.
  unfold constructor_error, rejected. intros H.
  destruct C; eauto.
Qed.

Lemma engine_create_inv (C : SchemaConstructor) (p : parameters) (s : schema)
  (t : list event) :
  engine_create C p = (Normal s, t) -> s = create C p /\ t = [].
Proof.
  unfold engine_create. destruct (constructor_error C p); [discriminate|].
  intros H. injection H as <- <-. split; reflexivity.
Qed.

Lemma engine_create_cases (C : SchemaConstructor) (p : parameters) :
  engine_create C p = (Normal (create C p), []) \/
  exists e, rejected e /\ engine_create C p = (Throw e, []).
Proof.
  unfold engine_create. destruct (constructor_error C p) as [e|] eqn:E.
  - right. exists e. split; [|reflexivity].
    exact (constructor_error_rejected _ _ E).
  - left. reflexivity.
Qed.

Lemma engine_create_accepted (C : SchemaConstructor) (p : parameters) :
  constructor_error C p = None ->
  engine_create C p = (Normal (create C p), []).
Proof. unfold engine_create. intros ->. reflexivity. Qed.

Lemma create_schema_cases (d : OptionInfo) (isCLI : jsval)
  (C : SchemaConstructor) (p h : parameters) :
  create_schema d isCLI C p h = (Normal (returned_schema d isCLI C p h), []) \/
  exists e, rejected e /\ create_schema d isCLI C p h = (Throw e, []).
Proof.
  unfold create_schema, returned_schema. destruct (truthy (array d)).
  - destruct (engine_create_cases C p) as [H|[e [He H]]]; rewrite H.
    + rewrite bind_pure. apply engine_create_cases.
    + right. exists e. split; [exact He|reflexivity].
  - apply engine_create_cases.
Qed.

Lemma create_schema_inv (d : OptionInfo) (isCLI : jsval)
  (C : SchemaConstructor) (p h : parameters) (s : schema) (t : list event) :
  create_schema d isCLI C p h = (Normal s, t) ->
  s = returned_schema d isCLI C p h /\ t = [].
Proof.
  destruct (create_schema_cases d isCLI C p h) as [H|[e [_ H]]];
    rewrite H; intros F; [|discriminate F].
  injection F as <- <-. split; reflexivity.
Qed.

Lemma rewrite_choice_trace (d : OptionInfo) (c : jsval) :
  snd (rewrite_choice d c) = [].
Proof.
  destruct c; try reflexivity. simpl.
  destruct (truthy (get_property props "redirect")); reflexivity.
Qed.

Lemma mapM_rewrite_choice_trace (d : OptionInfo) (l : list jsval) :
  snd (mapM (rewrite_choice d) l) = [].
Proof.
  induction l as [|c l IH]; simpl; [reflexivity|].
  apply bind_trace_nil; [apply rewrite_choice_trace|]. intros c'.
  apply bind_trace_nil; [exact IH|]. reflexivity.
Qed.

Lemma switch_type_trace (d : OptionInfo) (isCLI : jsval)
  (optionInfos : list OptionInfo) :
  snd (switch_type d isCLI optionInfos) = [].
Proof.
  unfold switch_type.
  destruct (type_is (type d) "int"); [reflexivity|].
  destruct (type_is (type d) "choice").
  { apply bind_trace_nil; [|reflexivity]. unfold map_choices.
    destruct (choices d); try reflexivity. apply mapM_rewrite_choice_trace. }
  destruct (type_is (type d) "boolean"); [reflexivity|].
  destruct (type_is (type d) "flag"); [reflexivity|].
  destruct (type_is (type d) "path"); reflexivity.
Qed.

Lemma create_schema_trace (d : OptionInfo) (isCLI : jsval)
  (C : SchemaConstructor) (p h : parameters) :
  snd (create_schema d isCLI C p h) = [].
Proof.
  destruct (create_schema_cases d isCLI C p h) as [H|[e [_ H]]]; rewrite H;
    reflexivity.
Qed.

Lemma optionInfoToSchema_trace (d : OptionInfo) (isCLI : jsval)
  (optionInfos : list OptionInfo) :
  snd (optionInfoToSchema d isCLI optionInfos) = [].
Proof.
  unfold optionInfoToSchema. apply bind_trace_nil;
    [apply switch_type_trace|]. intros cp. apply create_schema_trace.
Qed.

Lemma optionInfoToSchema_inv (d : OptionInfo) (isCLI : jsval)
  (optionInfos : list OptionInfo) (s : schema) (t : list event) :
  optionInfoToSchema d isCLI optionInfos = (Normal s, t) ->
  exists C p,
    switch_type d isCLI optionInfos = (Normal (C, p), t) /\
    s = returned_schema d isCLI C (set_validate d p) (make_handlers d).
Proof.
  unfold optionInfoToSchema. intros H.
  apply bind_normal_inv in H as [[C p] [t1 [t2 [Hsw [Hc ->]]]]].
  apply create_schema_inv in Hc as [-> ->]. rewrite app_nil_r.
  exists C, p. split; [exact Hsw|reflexivity].
Qed.



Lemma mapM_rewrite_choice_throw (d : OptionInfo) (l : list jsval)
  (e : error) (t : list event) :
  mapM (rewrite_choice d) l = (Throw e, t) ->
  In JNull l /\ exists msg, e = TypeError msg.
Proof.
  revert t. induction l as [|c l IH]; simpl; intros t H; [discriminate H|].
  apply bind_throw_inv in H as [H|[c' [t1 [t2 [_ [H _]]]]]].
  - destruct c; simpl in H; try discriminate H.
    + injection H as <- _. split; [left; reflexivity|eexists; reflexivity].
    + destruct (truthy (get_property props "redirect")); discriminate H.
  - apply bind_throw_inv in H as [H|[cs [t3 [t4 [_ [H _]]]]]];
      [|discriminate H].
    apply IH in H as [Hin Hmsg]. split; [right; exact Hin|exact Hmsg].
Qed.

Lemma switch_type_throw (d : OptionInfo) (isCLI : jsval)
  (optionInfos : list OptionInfo) (e : error) (t : list event) :
  switch_type d isCLI optionInfos = (Throw e, t) ->
  (~ recognized d /\
   e = Error ("Unexpected type " ++ ToString (type d))) \/
  (~ choices_listed d /\ exists msg, e = TypeError msg).
Proof.
  unfold switch_type.
  destruct (type_is (type d) "int") eqn:E1; [discriminate|].
  destruct (type_is (type d) "choice") eqn:E2.
  { apply type_is_eq in E2. intros H. right.
    apply bind_throw_inv in H as [H|[cs [t1 [t2 [_ [H _]]]]]];
      [|discriminate H].
    unfold map_choices in H.
    destruct (choices d) as [| |b|n|s|l|o] eqn:Ec; unfold throw in H;
      try (injection H as <- _; split; [|eexists; reflexivity];
           intros F; destruct (F E2) as [l' [Hl' _]]; rewrite Ec in Hl';
           discriminate Hl').
    apply mapM_rewrite_choice_throw in H as [Hin Hmsg].
    split; [|exact Hmsg].
    intros F. destruct (F E2) as [l' [Hl' Hn]]. rewrite Ec in Hl'.
    injection Hl' as <-. contradiction. }
  destruct (type_is (type d) "boolean") eqn:E3; [discriminate|].
  destruct (type_is (type d) "flag") eqn:E4; [discriminate|].
  destruct (type_is (type d) "path") eqn:E5; [discriminate|].
  intros H. injection H as <- _. left. split; [|reflexivity].
  intros [F|[F|[F|[F|F]]]]; apply type_is_eq in F; congruence.
Qed.

Lemma optionInfoToSchema_throw (d : OptionInfo) (isCLI : jsval)
  (optionInfos : list OptionInfo) (e : error) (t : list event) :
  optionInfoToSchema d isCLI optionInfos = (Throw e, t) ->
  (~ recognized d /\
   e = Error ("Unexpected type " ++ ToString (type d))) \/
  (~ choices_listed d /\ exists msg, e = TypeError msg) \/
  rejected e.
Proof.
  unfold optionInfoToSchema. intros H.
  apply bind_throw_inv in H as [H|[[C p] [t1 [t2 [_ [H _]]]]]].
  - apply switch_type_throw in H as [H|H]; [left|right; left]; exact H.
  - right. right. simpl in H.
    destruct (create_schema_cases d isCLI C (set_validate d p)
                (make_handlers d)) as [F|[e' [He F]]];
      rewrite F in H; [discriminate H|].
    injection H as <- _. exact He.
Qed.

Lemma push_alias_cases (d : OptionInfo) (isCLI : jsval) (acc : list schema) :
  push_alias d isCLI acc = (Normal (acc ++ alias_schemas isCLI d)%list, []) \/
  exists e, rejected e /\ push_alias d isCLI acc = (Throw e, []).
Proof.
  unfold push_alias, alias_schemas.
  destruct (alias d) as [a|]; [|left; rewrite app_nil_r; reflexivity].
  destruct (truthy (JString a) && truthy isCLI);
    [|left; rewrite app_nil_r; reflexivity].
  destruct (engine_create_cases AliasSchema
              (assign (obj_name a) (obj_sourceName (name d))))
    as [H|[e [He H]]]; rewrite H.
  - left. reflexivity.
  - right. exists e. split; [exact He|reflexivity].
Qed.

Lemma push_alias_inv (d : OptionInfo) (isCLI : jsval) (acc r : list schema)
  (t : list event) :
  push_alias d isCLI acc = (Normal r, t) ->
  r = (acc ++ alias_schemas isCLI d)%list /\ t = [].
Proof.
  destruct (push_alias_cases d isCLI acc) as [H|[e [_ H]]]; rewrite H;
    intros F; [|discriminate F].
  injection F as <- <-. split; reflexivity.
Qed.

Lemma push_alias_accepted (d : OptionInfo) (isCLI : jsval)
  (acc : list schema) :
  (forall a, alias d = Some a -> truthy (JString a) && truthy isCLI = true ->
     constructor_error AliasSchema
       (assign (obj_name a) (obj_sourceName (name d))) = None) ->
  push_alias d isCLI acc = (Normal (acc ++ alias_schemas isCLI d)%list, []).
Proof.
  intros H. unfold push_alias, alias_schemas.
  destruct (alias d) as [a|]; [|rewrite app_nil_r; reflexivity].
  destruct (truthy (JString a) && truthy isCLI) eqn:E;
    [|rewrite app_nil_r; reflexivity].
  rewrite (engine_create_accepted _ _ (H a eq_refl E)). reflexivity.
Qed.

Lemma push_alias_trace (d : OptionInfo) (isCLI : jsval) (acc : list schema) :
  snd (push_alias d isCLI acc) = [].
Proof.
  destruct (push_alias_cases d isCLI acc) as [H|[e [_ H]]]; rewrite H;
    reflexivity.
Qed.

Lemma push_schemas_trace (rest : list OptionInfo) (isCLI : jsval)
  (optionInfos : list OptionInfo) (acc : list schema) :
  snd (push_schemas rest isCLI optionInfos acc) = [].
Proof.
  revert acc. induction rest as [|d rest IH]; intros acc; simpl;
    [reflexivity|].
  apply bind_trace_nil; [apply optionInfoToSchema_trace|]. intros s.
  apply bind_trace_nil; [apply push_alias_trace|]. intros schemas. apply IH.
Qed.

Lemma optionInfosToSchemas_trace (optionInfos : list OptionInfo)
  (isCLI : jsval) :
  snd (optionInfosToSchemas optionInfos isCLI) = [].
Proof.
  unfold optionInfosToSchemas. apply bind_trace_nil.
  - destruct (truthy isCLI); [|reflexivity].
    destruct (engine_create_cases AnySchema (obj_name "_"))
      as [H|[e [_ H]]]; rewrite H; reflexivity.
  - intros schemas. apply push_schemas_trace.
Qed.




Lemma push_schemas_first_failure (pre post : list OptionInfo) (d : OptionInfo)
  (isCLI : jsval) (optionInfos : list OptionInfo) (acc : list schema)
  (e : error) (t : list event) :
  Forall (builds isCLI optionInfos) pre ->
  optionInfoToSchema d isCLI optionInfos = (Throw e, t) ->
  push_schemas (pre ++ d :: post) isCLI optionInfos acc = (Throw e, []).
Proof.
  intros Hb Hd. revert acc.
  induction pre as [|x pre IH]; intros acc; simpl.
  - pose proof (optionInfoToSchema_trace d isCLI optionInfos) as Ht.
    rewrite Hd in *. simpl in Ht. subst t. reflexivity.
  - inversion Hb as [|? ? [[s Hs] Ha] Hrest]; subst.
    rewrite Hs, bind_pure.
    rewrite (push_alias_accepted x isCLI (acc ++ [s]) Ha), bind_pure.
    apply IH. exact Hrest.
Qed.

(** *** Flags and unknown keys *)

Lemma fold_left_app_concat (ls : list (list string)) (acc : list string) :
  fold_left (fun a b => (a ++ b)%list) ls acc = (acc ++ List.concat ls)%list.
Proof.
  revert acc. induction ls as [|l ls IH]; intros acc; simpl.
  - rewrite app_nil_r. reflexivity.
  - rewrite IH, app_assoc. reflexivity.
Qed.

Lemma flags_of_names (d : OptionInfo) : flags_of d = flag_names d.
Proof.
  unfold flags_of, flag_names, declares, truthy_string.
  destruct (alias d) as [a|]; [|reflexivity].
  destruct (truthy (JString a)); reflexivity.
Qed.

Lemma collect_flags_universe (optionInfos : list OptionInfo) :
  collect_flags optionInfos = flag_universe optionInfos.
Proof.
  unfold collect_flags, flag_universe. rewrite fold_left_app_concat. simpl.
  f_equal. apply map_ext. exact flags_of_names.
Qed.

Lemma not_listed_false (elems : list jsval) (k : string) :
  not_listed elems k = false <-> In (JString k) elems.
Proof.
  unfold not_listed. rewrite negb_false_iff, existsb_exists. split.
  - intros [v [Hin Hv]]. apply type_is_eq in Hv. subst v. exact Hin.
  - intros Hin. exists (JString k). split; [exact Hin|].
    apply type_is_eq. reflexivity.
Qed.

Lemma not_listed_true (elems : list jsval) (k : string) :
  not_listed elems k = true <-> ~ In (JString k) elems.
Proof.
  rewrite <- not_listed_false. destruct (not_listed elems k); split;
    congruence.
Qed.

(** The guard [if (suggestion)]: an empty first match is not substituted. *)
Lemma preprocess_empty_suggestion (nm : string) (flags : list string)
  (s : string) (utils : Utils) :
  first_close_match flags s "" ->
  preprocess (FlagSchema_constructor nm flags) (JString s) utils =
    (Normal (JString s), []).
Proof.
  intros H. unfold preprocess. simpl.
  destruct (negb (String.length s =? 0)%nat
            && (indexOf (sort flags) s =? -1)%Z); [|reflexivity].
  rewrite (find_close_match H). reflexivity.
Qed.

(** ** The claims *)

(** C8. The CLI descriptor strategy renders a key of length 1 as [-key] and
    any other key as [--key]; a pair with value [false] as [--no-key], with
    value [true] as the rendered key alone, with the empty string as the
    rendered key followed by " without an argument", and any other pair as
    the rendered key, [=] and the value converted to a string. *)
Theorem cliDescriptor_rendering (k : string) (v : jsval) :
  (String.length k = 1 -> key cliDescriptor k = "-" ++ k) /\
  (String.length k <> 1 -> key cliDescriptor k = "--" ++ k) /\
  (v = JBool false -> pair cliDescriptor k v = "--no-" ++ k) /\
  (v = JBool true -> pair cliDescriptor k v = key cliDescriptor k) /\
  (v = JString "" ->
   pair cliDescriptor k v = key cliDescriptor k ++ " without an argument") /\
  (v <> JBool false -> v <> JBool true -> v <> JString "" ->
   pair cliDescriptor k v = key cliDescriptor k ++ "=" ++ ToString v).
Proof.
  simpl. unfold cliDescriptor_pair, cliDescriptor_key.
  repeat split.
  - intros ->. reflexivity.
  - intros H. apply Nat.eqb_neq in H. rewrite H. reflexivity.
  - intros ->. reflexivity.
  - intros ->. reflexivity.
  - intros ->. reflexivity.
  - intros Hf Ht He.
    destruct v as [| |[|]|n|s|l|o]; try reflexivity; try congruence.
    simpl. destruct (String.eqb s "") eqn:E; [|reflexivity].
    apply String.eqb_eq in E. congruence.
Qed.

(** C2, as amended.  For every flag universe and every value:
    a non-empty string that is not a known flag is replaced by the first
    known flag, in sorted order, at distance strictly less than 3 from it,
    with exactly one warning, provided that this flag is not the empty
    string; the value comes back unchanged, without a warning, when no
    known flag is at distance less than 3, when it is not a string, when it
    is the empty string and when it is a known flag. *)
Theorem preprocess_suggestion (nm : string) (flags : list string)
  (v : jsval) (utils : Utils) :
  let this := FlagSchema_constructor nm flags in
  (forall s g, v = JString s -> s <> "" -> ~ In s flags ->
     close_match flags s g ->
     exists f,
       first_close_match flags s f /\
       (f <> "" ->
        preprocess this v utils =
          (Normal (JString f),
           [LoggerWarn (logger utils)
              (unknown_flag_message utils v (JString f))]))) /\
  (forall s, v = JString s -> s <> "" -> ~ In s flags ->
     (forall g, In g flags -> 3 <= leven g s) ->
     preprocess this v utils = (Normal v, [])) /\
  ((forall s, v <> JString s) -> preprocess this v utils = (Normal v, [])) /\
  (v = JString "" -> preprocess this v utils = (Normal v, [])) /\
  (forall s, v = JString s -> In s flags ->
     preprocess this v utils = (Normal v, [])).
Proof.
  intros this. repeat split.
  - intros s g -> Hs Hout Hg.
    destruct (first_close_match_exists Hg) as [f Hfirst].
    exists f. split; [exact Hfirst|]. intros Hf.
    unfold preprocess. simpl.
    rewrite (nonempty_length Hs). simpl.
    assert (Habs : indexOf (sort flags) s = (-1)%Z).
    { apply indexOf_absent. rewrite sort_In. exact Hout. }
    rewrite Habs. simpl.
    rewrite (find_close_match Hfirst). simpl.
    rewrite (nonempty_length Hf). reflexivity.
  - intros s -> Hs Hout Hfar. unfold preprocess. simpl.
    rewrite (nonempty_length Hs). simpl.
    destruct (indexOf (sort flags) s =? -1)%Z; [|reflexivity].
    rewrite find_no_close_match by exact Hfar. reflexivity.
  - intros H. destruct v; try reflexivity. elim (H s). reflexivity.
  - intros ->. reflexivity.
  - intros s -> Hin. unfold preprocess. simpl.
    destruct (indexOf (sort flags) s =? -1)%Z eqn:E.
    + apply Z.eqb_eq in E. rewrite indexOf_absent, sort_In in E.
      contradiction.
    + rewrite andb_false_r. reflexivity.
Qed.

(** C9. [preprocess] never throws: it always returns, either the value it
    was given, having logged nothing, or a known flag at distance less than
    3 that it substitutes for a string, having called [warn] on the logger
    of [utils] exactly once. *)
Theorem preprocess_never_throws (this : FlagSchemaInstance) (v : jsval)
  (utils : Utils) :
  exists r trace,
    preprocess this v utils = (Normal r, trace) /\
    ((r = v /\ trace = []) \/
     (exists s f,
        v = JString s /\ r = JString f /\ In f (_flags this) /\
        leven f s < 3 /\
        trace = [LoggerWarn (logger utils)
                   (unknown_flag_message utils v r)])).
Proof.
  unfold preprocess.
  destruct v as [| |b|n|s|l|o];
    try (eexists; eexists; split; [reflexivity|left; split; reflexivity]).
  destruct (negb (String.length s =? 0)%nat
            && (indexOf (_flags this) s =? -1)%Z);
    [|eexists; eexists; split; [reflexivity|left; split; reflexivity]].
  destruct (find (fun flag => (leven flag s <? 3)%nat) (_flags this))
    as [f|] eqn:E; simpl;
    [|eexists; eexists; split; [reflexivity|left; split; reflexivity]].
  destruct (negb (String.length f =? 0)%nat);
    [|eexists; eexists; split; [reflexivity|left; split; reflexivity]].
  apply find_some in E as [Hin Hlt]. apply Nat.ltb_lt in Hlt.
  eexists; eexists; split; [reflexivity|right].
  exists s, f. repeat split; assumption.
Qed.


(** C3. The engine is given the unknown-key handler chosen from
    [passThrough]: the engine's own nearest-match handler when it is falsy;
    when it is a list, a handler that returns [{key: value}] for a key in
    the list and [undefined] for any other key; for any other truthy value,
    a handler that returns [{key: value}] for every key. *)
Theorem unknown_key_policy (options : Options) (optionInfos : list OptionInfo)
  (opts : option Settings) :
  let passThrough := passThrough_of opts in
  let unknown := unknown_handler passThrough in
  normalizeOptions options optionInfos opts =
    (schemas <- optionInfosToSchemas optionInfos (isCLI_of opts) ;;
     normalize options schemas
       {| engine_logger := logger_of opts;
          engine_unknown := unknown;
          engine_descriptor :=
            if truthy (isCLI_of opts) then cliDescriptor else apiDescriptor |})
  /\ (truthy passThrough = false -> unknown = levenUnknownHandler)
  /\ (forall names, passThrough = JArray names ->
      forall k v utils,
        (In (JString k) names ->
         unknown k v utils = (Normal (JObject [(k, v)]), [])) /\
        (~ In (JString k) names ->
         unknown k v utils = (Normal JUndefined, [])))
  /\ (truthy passThrough = true ->
      (forall names, passThrough <> JArray names) ->
      forall k v utils, unknown k v utils = (Normal (JObject [(k, v)]), [])).
Proof.
  intros passThrough unknown. subst unknown. split; [|split; [|split]].
  - destruct opts as [o|]; reflexivity.
  - intros H. unfold unknown_handler. rewrite H. reflexivity.
  - intros names -> k v utils. unfold unknown_handler. simpl. split.
    + intros H. apply not_listed_false in H. rewrite H. reflexivity.
    + intros H. apply not_listed_true in H. rewrite H. reflexivity.
  - intros H Hna k v utils. unfold unknown_handler. rewrite H. simpl.
    destruct passThrough; try reflexivity. elim (Hna elems). reflexivity.
Qed.

(** C4, as amended.  [normalizeApiOptions] is the general normalizer on the
    settings as given, and [normalizeCliOptions] is the general normalizer
    on the settings with [isCLI: true] as a default.  So when the settings
    carry no [isCLI] of their own (or are omitted) the API entry point
    equals the general normalizer with [isCLI] fixed to [false] and the CLI
    one equals it with [isCLI] fixed to [true]; when the settings carry
    their own [isCLI], both entry points equal the general normalizer on
    the settings as given. *)
Theorem entry_points (options : Options) (optionInfos : list OptionInfo)
  (opts : option Settings) :
  (owns_isCLI opts = false ->
   normalizeApiOptions options optionInfos opts =
     normalizeOptions options optionInfos (fix_isCLI false opts) /\
   normalizeCliOptions options optionInfos opts =
     normalizeOptions options optionInfos (fix_isCLI true opts)) /\
  (owns_isCLI opts = true ->
   normalizeApiOptions options optionInfos opts =
     normalizeOptions options optionInfos opts /\
   normalizeCliOptions options optionInfos opts =
     normalizeOptions options optionInfos opts).
Proof.
  unfold normalizeApiOptions, normalizeCliOptions. split; intros H.
  - destruct opts as [[lg [c|] pt]|]; try discriminate H; split; reflexivity.
  - destruct opts as [[lg [c|] pt]|]; try discriminate H; split; reflexivity.
Qed.

(** C5. The schema that validates a value of the option carries a
    [validate] override.  When the descriptor declares an [exception], the
    override returns the predicate's result if it is truthy and the result
    of the schema's own validation otherwise, so its result is truthy
    exactly when one of the two is; when it declares none, the override
    returns [true] on [undefined] and the result of the schema's own
    validation on any other value. *)
Theorem effective_validator (d : OptionInfo) (isCLI : jsval)
  (optionInfos : list OptionInfo) (s : schema) (t : list event) :
  optionInfoToSchema d isCLI optionInfos = (Normal s, t) ->
  exists C p f,
    element_schema s = create C p /\ param_validate p = Some f /\
    (forall ex, exception d = Some ex ->
     forall v schema utils,
       (truthy (ex v) = true -> f v schema utils = ex v) /\
       (truthy (ex v) = false ->
        f v schema utils = validate schema v utils) /\
       truthy (f v schema utils) =
         truthy (ex v) || truthy (validate schema v utils)) /\
    (exception d = None ->
     forall schema utils,
       f JUndefined schema utils = JBool true /\
       forall v, v <> JUndefined ->
         f v schema utils = validate schema v utils).
Proof.
  intros H. apply optionInfoToSchema_inv in H as [C [p [Hsw ->]]].
  apply switch_type_bare in Hsw as [HC [Hv [Hr [Hd Hvs]]]].
  exists C, (if truthy (array d) then set_validate d p
             else assign (assign empty (set_validate d p)) (make_handlers d)).
  assert (Hel : element_schema
                  (returned_schema d isCLI C (set_validate d p)
                     (make_handlers d))
                = create C (if truthy (array d) then set_validate d p
                            else assign (assign empty (set_validate d p))
                                   (make_handlers d))).
  { unfold returned_schema. destruct (truthy (array d)); simpl; [reflexivity|].
    unfold set_validate. destruct (exception d); simpl; rewrite Hvs;
      unfold make_handlers; destruct (redirect d), (truthy (deprecated d));
      reflexivity. }
  unfold set_validate in *. destruct (exception d) as [ex|].
  - eexists. split; [exact Hel|]. split.
    + destruct (truthy (array d)); unfold make_handlers;
        destruct (redirect d), (truthy (deprecated d)); reflexivity.
    + split; [|discriminate]. intros ex' Hex. injection Hex as <-.
      intros v schema utils. unfold js_or.
      destruct (truthy (ex v)) eqn:E; repeat split; try discriminate;
        try reflexivity. exact E.
  - eexists. split; [exact Hel|]. split.
    + destruct (truthy (array d)); unfold make_handlers;
        destruct (redirect d), (truthy (deprecated d)); reflexivity.
    + split; [discriminate|]. intros _ schema utils. split; [reflexivity|].
      intros v Hv'. destruct v; try reflexivity. congruence.
Qed.

(** C6. The flag universe handed to the Flag Schema of a flag descriptor is
    the concatenation, over every descriptor of the full list in order, of
    its alias when present, its own name when it declares a description and
    [no-name] when it declares an opposite description. *)
Theorem flag_universe_collected (d : OptionInfo) (isCLI : jsval)
  (optionInfos : list OptionInfo) (s : schema) (t : list event) :
  type d = JString "flag" ->
  optionInfoToSchema d isCLI optionInfos = (Normal s, t) ->
  exists p,
    element_schema s = create FlagSchema p /\
    param_flags p = Some (flag_universe optionInfos).
Proof.
  intros Hty H. apply optionInfoToSchema_inv in H as [C [p [Hsw ->]]].
  rewrite switch_type_flag in Hsw by exact Hty.
  injection Hsw as <- <- <-.
  rewrite collect_flags_universe.
  unfold returned_schema, set_validate, make_handlers.
  destruct (truthy (array d)), (exception d), (redirect d),
    (truthy (deprecated d)); simpl; eexists; split; reflexivity.
Qed.

(** C7. The schema built from a descriptor that declares a [redirect]
    carries a redirect handler, which returns [undefined] for every falsy
    value and [{to: {key: redirect.option, value: redirect.value}}] for
    every truthy one. *)
Theorem redirect_handler_attached (d : OptionInfo) (isCLI : jsval)
  (optionInfos : list OptionInfo) (s : schema) (t : list event)
  (r : RedirectInfo) :
  optionInfoToSchema d isCLI optionInfos = (Normal s, t) ->
  redirect d = Some r ->
  exists C p h,
    s = create C p /\ param_redirect p = Some h /\
    forall v,
      (truthy v = false -> h v = JUndefined) /\
      (truthy v = true ->
       h v = JObject [("to", JObject [("key", redirect_option r);
                                      ("value", redirect_value r)])]).
Proof.
  intros H Hr. apply optionInfoToSchema_inv in H as [C [p [Hsw ->]]].
  unfold returned_schema, make_handlers. rewrite Hr.
  assert (Hh : forall v,
             (truthy v = false -> redirect_handler r v = JUndefined) /\
             (truthy v = true ->
              redirect_handler r v =
                JObject [("to", JObject [("key", redirect_option r);
                                         ("value", redirect_value r)])])).
  { intros v. unfold redirect_handler.
    destruct (truthy v); simpl; split; intros E; try discriminate E;
      reflexivity. }
  destruct (truthy (array d)), (truthy (deprecated d));
    eexists; eexists; exists (redirect_handler r);
    (split; [reflexivity|split; [reflexivity|exact Hh]]).
Qed.

(** C10. For a descriptor with [array] set the schema built is an array
    schema around a value schema.  The array schema carries the [redirect]
    handler and the [deprecated] mark of the descriptor and no [validate]
    override; the value schema carries the [validate] override, which
    accepts [undefined] when the descriptor declares no exception, and
    neither a [redirect] handler nor a [deprecated] mark. *)
Theorem array_schema_wrapping (d : OptionInfo) (isCLI : jsval)
  (optionInfos : list OptionInfo) (s : schema) (t : list event) :
  optionInfoToSchema d isCLI optionInfos = (Normal s, t) ->
  truthy (array d) = true ->
  exists pa C p f,
    s = create ArraySchema pa /\
    param_valueSchema pa = Some (create C p) /\
    param_redirect pa = option_map redirect_handler (redirect d) /\
    param_deprecated pa =
      (if truthy (deprecated d) then Some true else None) /\
    param_validate pa = None /\
    C <> ArraySchema /\
    param_validate p = Some f /\
    (exception d = None ->
     forall schema utils, f JUndefined schema utils = JBool true) /\
    (forall ex, exception d = Some ex ->
     forall v schema utils,
       f v schema utils = js_or (ex v) (validate schema v utils)) /\
    param_redirect p = None /\ param_deprecated p = None.
Proof.
  intros H Ha. apply optionInfoToSchema_inv in H as [C [p [Hsw ->]]].
  apply switch_type_bare in Hsw as [HC [Hv [Hr [Hd Hvs]]]].
  unfold returned_schema. rewrite Ha.
  exists (assign
            (assign
               (if truthy isCLI then obj_preprocess concat_value else empty)
               (make_handlers d))
            (obj_valueSchema (create C (set_validate d p)))),
    C, (set_validate d p).
  assert (Hf : exists f,
             param_validate (set_validate d p) = Some f /\
             (exception d = None ->
              forall schema utils, f JUndefined schema utils = JBool true) /\
             (forall ex, exception d = Some ex ->
              forall v schema utils,
                f v schema utils = js_or (ex v) (validate schema v utils))).
  { unfold set_validate. destruct (exception d) as [ex|]; eexists;
      (split; [reflexivity|]); split; try discriminate.
    - intros ex' Hex. injection Hex as <-. reflexivity.
    - intros _ schema utils. reflexivity. }
  destruct Hf as [f [Hf1 [Hf2 Hf3]]]. exists f.
  assert (Hkeep : param_redirect (set_validate d p) = None /\
                  param_deprecated (set_validate d p) = None).
  { unfold set_validate. destruct (exception d); simpl; rewrite Hr, Hd;
      split; reflexivity. }
  destruct Hkeep as [Hk1 Hk2].
  unfold make_handlers.
  repeat split; try assumption;
    destruct (redirect d), (truthy (deprecated d)), (truthy isCLI);
    reflexivity.
Qed.

(** ** Further properties of the module *)

(** *** Computations that return *)

(** *** Property objects *)

Lemma get_set_same (props : list (string * jsval)) (k : string) (v : jsval) :
  get_property (set_property props k v) k = v.
Proof.
  induction props as [|[k' v'] props IH]; simpl.
  - rewrite String.eqb_refl. reflexivity.
  - destruct (String.eqb k' k) eqn:E; simpl; rewrite E; [reflexivity|exact IH].
Qed.

Lemma get_set_other (props : list (string * jsval)) (k k0 : string)
  (v : jsval) :
  k0 <> k -> get_property (set_property props k v) k0 = get_property props k0.
Proof.
  intros Hk. induction props as [|[k' v'] props IH]; simpl.
  - destruct (String.eqb k k0) eqn:E; [|reflexivity].
    apply String.eqb_eq in E. congruence.
  - destruct (String.eqb k' k) eqn:E; simpl.
    + apply String.eqb_eq in E. subst k'.
      destruct (String.eqb k k0) eqn:F; [|reflexivity].
      apply String.eqb_eq in F. congruence.
    + destruct (String.eqb k' k0); [reflexivity|exact IH].
Qed.

Lemma set_keys_present (props : list (string * jsval)) (k : string)
  (v : jsval) :
  get_property props k <> JUndefined ->
  map fst (set_property props k v) = map fst props.
Proof.
  induction props as [|[k' v'] props IH]; simpl; intros H.
  - elim H. reflexivity.
  - destruct (String.eqb k' k) eqn:E; simpl; [reflexivity|].
    f_equal. apply IH. exact H.
Qed.

Lemma rewrite_choice_inv (d : OptionInfo) (c c' : jsval) (t : list event) :
  rewrite_choice d c = (Normal c', t) -> c <> JNull /\ choice_rewritten d c c'.
Proof.
  destruct c; simpl; try discriminate;
    try (intros H; injection H as <- _; split; [discriminate|reflexivity]).
  destruct (truthy (get_property props "redirect")) eqn:E;
    intros H; injection H as <- _; (split; [discriminate|]);
    [|reflexivity].
  eexists. split; [reflexivity|]. split.
  - apply set_keys_present. intros F. rewrite F in E. discriminate E.
  - split; [apply get_set_same|]. intros k Hk. apply get_set_other. exact Hk.
Qed.

Lemma mapM_rewrite_choice_inv (d : OptionInfo) (l cs : list jsval)
  (t : list event) :
  mapM (rewrite_choice d) l = (Normal cs, t) ->
  ~ In JNull l /\ Forall2 (choice_rewritten d) l cs.
Proof.
  revert cs t. induction l as [|c l IH]; simpl; intros cs t H.
  - injection H as <- _. split; [intros []|constructor].
  - apply bind_normal_inv in H as [c' [t1 [t2 [Hc [H _]]]]].
    apply bind_normal_inv in H as [cs' [t3 [t4 [Hl [H _]]]]].
    injection H as <- _.
    apply rewrite_choice_inv in Hc as [Hnull Hc].
    apply IH in Hl as [Hnone Hall]. split.
    + intros [F|F]; [congruence|contradiction].
    + constructor; assumption.
Qed.

(** *** The cases of the [switch] *)

Lemma switch_type_cases (d : OptionInfo) (isCLI : jsval)
  (optionInfos : list OptionInfo) C p t :
  switch_type d isCLI optionInfos = (Normal (C, p), t) ->
  (type d = JString "int" /\ C = IntegerSchema /\
   p = if truthy isCLI
       then assign (obj_name (name d))
              (obj_preprocess (fun v => JNumber (Number v)))
       else obj_name (name d)) \/
  (type d = JString "choice" /\ C = ChoiceSchema /\
   exists l cs,
     choices d = JArray l /\ ~ In JNull l /\
     Forall2 (choice_rewritten d) l cs /\
     p = assign (obj_name (name d)) (obj_choices cs)) \/
  (type d = JString "boolean" /\ C = BooleanSchema /\
   p = obj_name (name d)) \/
  (type d = JString "flag" /\ C = FlagSchema /\
   p = assign (obj_name (name d)) (obj_flags (collect_flags optionInfos))) \/
  (type d = JString "path" /\ C = StringSchema /\ p = obj_name (name d)).
Proof.
  unfold switch_type.
  destruct (type_is (type d) "int") eqn:E1.
  { apply type_is_eq in E1. intros H. injection H as <- <- _.
    left. repeat split. exact E1. }
  destruct (type_is (type d) "choice") eqn:E2.
  { apply type_is_eq in E2. intros H.
    apply bind_normal_inv in H as [cs [t1 [t2 [Hm [H _]]]]].
    injection H as <- <- _. right. left. split; [exact E2|].
    split; [reflexivity|]. unfold map_choices in Hm.
    destruct (choices d) as [| |b|n|s|l|o]; try discriminate Hm.
    apply mapM_rewrite_choice_inv in Hm as [Hnull Hall].
    exists l, cs. repeat split; assumption. }
  destruct (type_is (type d) "boolean") eqn:E3.
  { apply type_is_eq in E3. intros H. injection H as <- <- _.
    right. right. left. repeat split. exact E3. }
  destruct (type_is (type d) "flag") eqn:E4.
  { apply type_is_eq in E4. intros H. injection H as <- <- _.
    right. right. right. left. repeat split. exact E4. }
  destruct (type_is (type d) "path") eqn:E5; [|discriminate].
  apply type_is_eq in E5. intros H. injection H as <- <- _.
  right. right. right. right. repeat split. exact E5.
Qed.

Lemma switch_type_name (d : OptionInfo) (isCLI : jsval)
  (optionInfos : list OptionInfo) C p t :
  switch_type d isCLI optionInfos = (Normal (C, p), t) ->
  param_name p = Some (name d).
Proof.
  intros H. apply switch_type_cases in H
    as [[_ [_ ->]]|[[_ [_ [l [cs [_ [_ [_ ->]]]]]]]|[[_ [_ ->]]|[[_ [_ ->]]
        |[_ [_ ->]]]]]]; try reflexivity.
  destruct (truthy isCLI); reflexivity.
Qed.

Lemma switch_type_success (d : OptionInfo) (isCLI : jsval)
  (optionInfos : list OptionInfo) C p t :
  switch_type d isCLI optionInfos = (Normal (C, p), t) ->
  recognized d /\ choices_listed d.
Proof.
  intros H. unfold recognized, choices_listed.
  apply switch_type_cases in H
    as [[Ht _]|[[Ht [_ [l [cs [Hl [Hn _]]]]]]|[[Ht _]|[[Ht _]|[Ht _]]]]].
  - split; [left; exact Ht|]. intros F. rewrite Ht in F. discriminate F.
  - split; [right; left; exact Ht|]. intros _. exists l. split; assumption.
  - split; [right; right; left; exact Ht|].
    intros F. rewrite Ht in F. discriminate F.
  - split; [right; right; right; left; exact Ht|].
    intros F. rewrite Ht in F. discriminate F.
  - split; [right; right; right; right; exact Ht|].
    intros F. rewrite Ht in F. discriminate F.
Qed.

Lemma optionInfoToSchema_success (d : OptionInfo) (isCLI : jsval)
  (optionInfos : list OptionInfo) (s : schema) (t : list event) :
  optionInfoToSchema d isCLI optionInfos = (Normal s, t) ->
  recognized d /\ choices_listed d.
Proof.
  intros H. apply optionInfoToSchema_inv in H as [C [p [H _]]].
  exact (switch_type_success _ _ _ H).
Qed.

(** *** The shape of a built schema and of the schema list *)

Lemma built_schema_shape (d : OptionInfo) (isCLI : jsval)
  (optionInfos : list OptionInfo) (s : schema) (t : list event) :
  optionInfoToSchema d isCLI optionInfos = (Normal s, t) ->
  exists C p,
    switch_type d isCLI optionInfos = (Normal (C, p), []) /\
    s = returned_schema d isCLI C (set_validate d p) (make_handlers d) /\
    element_schema s =
      create C (if truthy (array d) then set_validate d p
                else assign (assign empty (set_validate d p))
                       (make_handlers d)).
Proof.
  intros H.
  pose proof (optionInfoToSchema_trace d isCLI optionInfos) as Ht.
  rewrite H in Ht. simpl in Ht. subst t.
  apply optionInfoToSchema_inv in H as [C [p [Hsw ->]]].
  exists C, p. split; [exact Hsw|]. split; [reflexivity|].
  apply switch_type_bare in Hsw as [_ [_ [_ [_ Hvs]]]].
  unfold returned_schema. destruct (truthy (array d)); simpl; [reflexivity|].
  unfold set_validate. destruct (exception d); simpl; rewrite Hvs;
    unfold make_handlers; destruct (redirect d), (truthy (deprecated d));
    reflexivity.
Qed.

Lemma built_schema_name (d : OptionInfo) (isCLI : jsval)
  (optionInfos : list OptionInfo) (s : schema) (t : list event) :
  optionInfoToSchema d isCLI optionInfos = (Normal s, t) ->
  element_name s = Some (name d).
Proof.
  intros H. apply built_schema_shape in H as [C [p [Hsw [_ He]]]].
  unfold element_name. rewrite He. simpl.
  apply switch_type_name in Hsw.
  unfold set_validate, make_handlers.
  destruct (truthy (array d)), (exception d), (redirect d),
    (truthy (deprecated d)); simpl; rewrite Hsw; reflexivity.
Qed.

Lemma push_schemas_structure (rest : list OptionInfo) (isCLI : jsval)
  (optionInfos : list OptionInfo) (acc schemas : list schema)
  (t : list event) :
  push_schemas rest isCLI optionInfos acc = (Normal schemas, t) ->
  exists ss,
    Forall2 (fun d s => optionInfoToSchema d isCLI optionInfos = (Normal s, []))
      rest ss /\
    schemas =
      (acc ++ flat_map (fun ds => snd ds :: alias_schemas isCLI (fst ds))
                (combine rest ss))%list.
Proof.
  revert acc schemas t. induction rest as [|d rest IH];
    intros acc schemas t H; simpl in H.
  - injection H as <- _. exists []. split; [constructor|].
    simpl. rewrite app_nil_r. reflexivity.
  - apply bind_normal_inv in H as [s [t1 [t2 [Hd [H _]]]]].
    pose proof (optionInfoToSchema_trace d isCLI optionInfos) as Ht.
    rewrite Hd in Ht. simpl in Ht. subst t1.
    apply bind_normal_inv in H as [acc' [t3 [t4 [Ha [H _]]]]].
    apply push_alias_inv in Ha as [-> _].
    apply IH in H as [ss [Hall ->]].
    exists (s :: ss). split; [constructor; assumption|].
    simpl. rewrite <- !app_assoc. reflexivity.
Qed.

Lemma optionInfosToSchemas_inv (optionInfos : list OptionInfo) (isCLI : jsval)
  (schemas : list schema) (t : list event) :
  optionInfosToSchemas optionInfos isCLI = (Normal schemas, t) ->
  push_schemas optionInfos isCLI optionInfos
    (if truthy isCLI then [create AnySchema (obj_name "_")] else []) =
    (Normal schemas, []).
Proof.
  intros H.
  pose proof (optionInfosToSchemas_trace optionInfos isCLI) as Ht.
  rewrite H in Ht. simpl in Ht. subst t. unfold optionInfosToSchemas in H.
  apply bind_normal_inv in H as [acc [t1 [t2 [Ha [H Ht]]]]].
  symmetry in Ht. apply app_eq_nil in Ht as [-> ->].
  destruct (truthy isCLI).
  - apply bind_normal_inv in Ha as [s [t1 [t2 [Hs [Ha _]]]]].
    apply engine_create_inv in Hs as [-> _].
    injection Ha as <-. exact H.
  - injection Ha as <-. exact H.
Qed.

Lemma push_schemas_throw_kind (rest : list OptionInfo) (isCLI : jsval)
  (optionInfos : list OptionInfo) (acc : list schema) (e : error)
  (t : list event) :
  push_schemas rest isCLI optionInfos acc = (Throw e, t) ->
  (exists d, In d rest /\ ~ recognized d /\
     e = Error ("Unexpected type " ++ ToString (type d))) \/
  (exists d msg, In d rest /\ ~ choices_listed d /\ e = TypeError msg) \/
  rejected e.
Proof.
  revert acc t. induction rest as [|d rest IH]; intros acc t H; simpl in H;
    [discriminate H|].
  apply bind_throw_inv in H as [H|[s [t1 [t2 [_ [H _]]]]]].
  - apply optionInfoToSchema_throw in H as [[Hn ->]|[[Hn [msg ->]]|Hr]].
    + left. exists d. split; [left; reflexivity|]. split; [exact Hn|].
      reflexivity.
    + right. left. exists d, msg. split; [left; reflexivity|].
      split; [exact Hn|reflexivity].
    + right. right. exact Hr.
  - apply bind_throw_inv in H as [H|[acc' [t3 [t4 [_ [H _]]]]]].
    + destruct (push_alias_cases d isCLI (acc ++ [s])) as [F|[e' [He F]]];
        rewrite F in H; [discriminate H|].
      injection H as <- _. right. right. exact He.
    + apply IH in H as [[x [Hin Hx]]|[[x [msg [Hin Hx]]]|Hr]].
      * left. exists x. split; [right; exact Hin|exact Hx].
      * right. left. exists x, msg. split; [right; exact Hin|exact Hx].
      * right. right. exact Hr.
Qed.

Lemma alias_schemas_api (isCLI : jsval) (d : OptionInfo) :
  truthy isCLI = false -> alias_schemas isCLI d = [].
Proof.
  intros H. unfold alias_schemas. rewrite H.
  destruct (alias d); [rewrite andb_false_r|]; reflexivity.
Qed.

Lemma switch_type_mode (d : OptionInfo) (v w : jsval)
  (optionInfos : list OptionInfo) :
  truthy v = truthy w ->
  switch_type d v optionInfos = switch_type d w optionInfos.
Proof. intros H. unfold switch_type. rewrite H. reflexivity. Qed.

Lemma optionInfoToSchema_mode (d : OptionInfo) (v w : jsval)
  (optionInfos : list OptionInfo) :
  truthy v = truthy w ->
  optionInfoToSchema d v optionInfos = optionInfoToSchema d w optionInfos.
Proof.
  intros H. unfold optionInfoToSchema, create_schema.
  rewrite (switch_type_mode d v w optionInfos H), H. reflexivity.
Qed.

Lemma push_alias_mode (d : OptionInfo) (v w : jsval) (acc : list schema) :
  truthy v = truthy w -> push_alias d v acc = push_alias d w acc.
Proof. intros H. unfold push_alias. rewrite H. reflexivity. Qed.

Lemma push_schemas_mode (rest : list OptionInfo) (v w : jsval)
  (optionInfos : list OptionInfo) (acc : list schema) :
  truthy v = truthy w ->
  push_schemas rest v optionInfos acc = push_schemas rest w optionInfos acc.
Proof.
  intros H. revert acc. induction rest as [|d rest IH]; intros acc; simpl;
    [reflexivity|].
  rewrite (optionInfoToSchema_mode d v w optionInfos H).
  apply bind_ext. intros s.
  rewrite (push_alias_mode d v w (acc ++ [s]) H).
  apply bind_ext. intros schemas. apply IH.
Qed.

Lemma optionInfosToSchemas_mode (optionInfos : list OptionInfo) (v w : jsval) :
  truthy v = truthy w ->
  optionInfosToSchemas optionInfos v = optionInfosToSchemas optionInfos w.
Proof.
  intros H. unfold optionInfosToSchemas. rewrite H.
  apply bind_ext. intros schemas. apply push_schemas_mode. exact H.
Qed.

(** *** Schema construction as a whole *)

(** X1. The outcomes of schema construction.  It returns only if every
    descriptor has one of the five recognized types and every choice
    descriptor carries its choices as a sequence without [null] entries.
    When it throws, the error is [Unexpected type ...] of a descriptor with
    an unrecognized type, a [TypeError] due to a choice descriptor whose
    choices are not such a sequence, or the error of a constructor of the
    engine that rejected its parameters. *)
Theorem construction_outcomes (optionInfos : list OptionInfo)
  (isCLI : jsval) :
  (forall schemas t,
     optionInfosToSchemas optionInfos isCLI = (Normal schemas, t) ->
     Forall recognized optionInfos /\ Forall choices_listed optionInfos) /\
  (forall e t,
     optionInfosToSchemas optionInfos isCLI = (Throw e, t) ->
     (exists d, In d optionInfos /\ ~ recognized d /\
        e = Error ("Unexpected type " ++ ToString (type d))) \/
     (exists d msg,
        In d optionInfos /\ ~ choices_listed d /\ e = TypeError msg) \/
     rejected e).
Proof.
  split.
  - intros schemas t H. apply optionInfosToSchemas_inv in H.
    apply push_schemas_structure in H as [ss [Hall _]].
    induction Hall as [|d s rest ss Hd _ IH]; [split; constructor|].
    apply optionInfoToSchema_success in Hd as [Hr Hc].
    destruct IH as [IHr IHc]. split; constructor; assumption.
  - intros e t H. unfold optionInfosToSchemas in H.
    apply bind_throw_inv in H as [H|[acc [t1 [t2 [_ [H _]]]]]].
    + destruct (truthy isCLI); [|discriminate H].
      apply bind_throw_inv in H as [H|[s [t1 [t2 [_ [H _]]]]]];
        [|discriminate H].
      destruct (engine_create_cases AnySchema (obj_name "_"))
        as [F|[e' [He F]]]; rewrite F in H; [discriminate H|].
      injection H as <- _. right. right. exact He.
    + exact (push_schemas_throw_kind _ _ _ _ H).
Qed.

(** X2. Schema construction never calls the logger, whether it returns or
    throws. *)
Theorem construction_never_logs (optionInfos : list OptionInfo)
  (isCLI : jsval) :
  snd (optionInfosToSchemas optionInfos isCLI) = [].
Proof.
  unfold optionInfosToSchemas. apply bind_trace_nil.
  - destruct (truthy isCLI); [|reflexivity].
    apply bind_trace_nil; [|reflexivity].
    unfold engine_create.
    destruct (constructor_error AnySchema (obj_name "_")); reflexivity.
  - intros schemas. apply push_schemas_trace.
Qed.

(** X3. The normalizer adds nothing of its own to the engine: when schema
    construction returns the schemas, its completion and its trace are
    those of the engine called on them; when construction throws, it throws
    the same error, has logged nothing, and the result does not depend on
    the options or on the engine. *)
Theorem normalizer_delegates (options : Options)
  (optionInfos : list OptionInfo) (opts : option Settings) :
  (forall schemas t,
     optionInfosToSchemas optionInfos (isCLI_of opts) = (Normal schemas, t) ->
     normalizeOptions options optionInfos opts =
       normalize options schemas
         {| engine_logger := logger_of opts;
            engine_unknown := unknown_handler (passThrough_of opts);
            engine_descriptor :=
              if truthy (isCLI_of opts) then cliDescriptor
              else apiDescriptor |}) /\
  (forall e t,
     optionInfosToSchemas optionInfos (isCLI_of opts) = (Throw e, t) ->
     normalizeOptions options optionInfos opts = (Throw e, [])).
Proof.
  assert (Hn : normalizeOptions options optionInfos opts =
            (schemas <- optionInfosToSchemas optionInfos (isCLI_of opts) ;;
             normalize options schemas
               {| engine_logger := logger_of opts;
                  engine_unknown := unknown_handler (passThrough_of opts);
                  engine_descriptor :=
                    if truthy (isCLI_of opts) then cliDescriptor
                    else apiDescriptor |})).
  { destruct opts as [o|]; reflexivity. }
  pose proof (optionInfosToSchemas_trace optionInfos (isCLI_of opts)) as Ht.
  split.
  - intros schemas t H. rewrite Hn, H in *. simpl in Ht. subst t.
    apply bind_ret_l.
  - intros e t H. rewrite Hn, H in *. simpl in Ht. subst t. reflexivity.
Qed.

(** X4. The mode is the truthiness of [isCLI]: settings whose [isCLI]
    reads truthy (or falsy, or is absent or [undefined]) normalize exactly
    as the same settings with [isCLI] set to [true] (or [false]). *)
Theorem mode_is_truthiness (options : Options) (optionInfos : list OptionInfo)
  (opts : option Settings) (b : bool) :
  truthy (isCLI_of opts) = b ->
  normalizeOptions options optionInfos opts =
    normalizeOptions options optionInfos (fix_isCLI b opts).
Proof.
  intros <-. unfold normalizeOptions, fix_isCLI.
  destruct opts as [[lg c pt]|]; simpl; [|reflexivity].
  rewrite (optionInfosToSchemas_mode optionInfos
             (default_to (JBool false) c)
             (JBool (truthy (default_to (JBool false) c))) eq_refl).
  reflexivity.
Qed.

(** X5. The mode of the CLI entry point: CLI when the settings are omitted
    or have no [isCLI] of their own, otherwise the truthiness of their
    [isCLI]; in particular an own [isCLI: undefined] gives API mode. *)
Theorem cli_entry_mode (options : Options) (optionInfos : list OptionInfo)
  (opts : option Settings) :
  normalizeCliOptions options optionInfos opts =
    normalizeOptions options optionInfos
      (fix_isCLI (if owns_isCLI opts then truthy (isCLI_of opts) else true)
         opts).
Proof.
  unfold normalizeCliOptions.
  destruct opts as [[lg [c|] pt]|]; try reflexivity.
  unfold normalizeOptions, fix_isCLI, assign_isCLI_true, owns_isCLI,
    isCLI_of, logger_of.
  cbn [settings_isCLI settings_logger settings_passThrough orElse].
  set (x := default_to (JBool false) (Some c)).
  change (default_to (JBool false) (Some (JBool (truthy x))))
    with (JBool (truthy x)).
  rewrite (optionInfosToSchemas_mode optionInfos x (JBool (truthy x)) eq_refl).
  reflexivity.
Qed.

(** X6. The schema list is, in CLI mode, the catch-all schema ["_"], and
    then in both modes, for each descriptor in order, the schema built from
    it followed in CLI mode by the alias schema of its truthy alias. *)
Theorem schema_list_structure (optionInfos : list OptionInfo) (isCLI : jsval)
  (schemas : list schema) (t : list event) :
  optionInfosToSchemas optionInfos isCLI = (Normal schemas, t) ->
  exists ss,
    Forall2
      (fun d s => optionInfoToSchema d isCLI optionInfos = (Normal s, []))
      optionInfos ss /\
    schemas =
      ((if truthy isCLI then [create AnySchema (obj_name "_")] else []) ++
       flat_map (fun ds => snd ds :: alias_schemas isCLI (fst ds))
         (combine optionInfos ss))%list.
Proof.
  intros H. apply optionInfosToSchemas_inv in H.
  apply push_schemas_structure in H as [ss [Hall ->]].
  exists ss. split; [exact Hall|]. reflexivity.
Qed.

(** X7. In API mode the schema list has exactly one schema per descriptor,
    in order, each the schema built from that descriptor: no catch-all and
    no alias schema is added. *)
Theorem api_one_schema_each (optionInfos : list OptionInfo) (isCLI : jsval)
  (schemas : list schema) (t : list event) :
  truthy isCLI = false ->
  optionInfosToSchemas optionInfos isCLI = (Normal schemas, t) ->
  Forall2 (fun d s => optionInfoToSchema d isCLI optionInfos = (Normal s, []))
    optionInfos schemas /\
  List.length schemas = List.length optionInfos.
Proof.
  intros Hm H. apply optionInfosToSchemas_inv in H. rewrite Hm in H.
  apply push_schemas_structure in H as [ss [Hall ->]]. simpl.
  assert (Hflat : flat_map (fun ds => snd ds :: alias_schemas isCLI (fst ds))
                    (combine optionInfos ss) = ss).
  { induction Hall as [|d s rest ss _ _ IH]; [reflexivity|].
    simpl. rewrite alias_schemas_api by exact Hm. rewrite IH. reflexivity. }
  rewrite Hflat. split; [exact Hall|].
  symmetry. exact (Forall2_length Hall).
Qed.

(** X8. The names under which the schemas validate, in order: ["_"] first
    in CLI mode, then for each descriptor its name, followed in CLI mode by
    its alias when truthy. *)
Theorem schema_names (optionInfos : list OptionInfo) (isCLI : jsval)
  (schemas : list schema) (t : list event) :
  optionInfosToSchemas optionInfos isCLI = (Normal schemas, t) ->
  map element_name schemas =
    ((if truthy isCLI then [Some "_"] else []) ++
     flat_map
       (fun d =>
          Some (name d) ::
          (if truthy_string (alias d) && truthy isCLI then [alias d] else []))
       optionInfos)%list.
Proof.
  intros H. apply optionInfosToSchemas_inv in H.
  apply push_schemas_structure in H as [ss [Hall ->]].
  rewrite map_app. f_equal; [destruct (truthy isCLI); reflexivity|].
  induction Hall as [|d s rest ss Hd _ IH]; [reflexivity|].
  apply built_schema_name in Hd.
  simpl. rewrite map_app, IH, Hd. f_equal. f_equal.
  unfold alias_schemas, truthy_string.
  destruct (alias d) as [a|]; [|reflexivity].
  destruct (truthy (JString a) && truthy isCLI); reflexivity.
Qed.

(** X9. The handlers of the schema returned for a descriptor, array or
    not: it carries a redirect handler exactly when the descriptor declares
    a [redirect], and the mark [deprecated: true] exactly when the
    descriptor declares [deprecated]. *)
Theorem handlers_follow_declarations (d : OptionInfo) (isCLI : jsval)
  (optionInfos : list OptionInfo) (s : schema) (t : list event) :
  optionInfoToSchema d isCLI optionInfos = (Normal s, t) ->
  param_redirect (schema_parameters s) =
    option_map redirect_handler (redirect d) /\
  param_deprecated (schema_parameters s) =
    (if truthy (deprecated d) then Some true else None).
Proof.
  intros H. apply built_schema_shape in H as [C [p [Hsw [-> _]]]].
  apply switch_type_bare in Hsw as [_ [_ [Hr [Hd _]]]].
  unfold returned_schema, set_validate, make_handlers.
  destruct (truthy (array d)), (exception d), (redirect d),
    (truthy (deprecated d)), (truthy isCLI); simpl; rewrite ?Hr, ?Hd;
    split; reflexivity.
Qed.


(** X11. The kind and the name of the schema built.  The schema that
    validates a value is named after the descriptor and its class follows
    the type: [IntegerSchema] for ["int"], [ChoiceSchema] for ["choice"],
    [BooleanSchema] for ["boolean"], [FlagSchema] for ["flag"] and
    [StringSchema] for ["path"].  For an array descriptor the schema
    returned is an [ArraySchema] whose own parameters carry no name. *)
Theorem schema_kind_follows_type (d : OptionInfo) (isCLI : jsval)
  (optionInfos : list OptionInfo) (s : schema) (t : list event) :
  optionInfoToSchema d isCLI optionInfos = (Normal s, t) ->
  element_name s = Some (name d) /\
  (truthy (array d) = true ->
   schema_constructor s = ArraySchema /\
   param_name (schema_parameters s) = None) /\
  (truthy (array d) = false -> element_schema s = s) /\
  (type d = JString "int" ->
   schema_constructor (element_schema s) = IntegerSchema) /\
  (type d = JString "choice" ->
   schema_constructor (element_schema s) = ChoiceSchema) /\
  (type d = JString "boolean" ->
   schema_constructor (element_schema s) = BooleanSchema) /\
  (type d = JString "flag" ->
   schema_constructor (element_schema s) = FlagSchema) /\
  (type d = JString "path" ->
   schema_constructor (element_schema s) = StringSchema).
Proof.
  intros H. split; [apply built_schema_name in H; exact H|].
  apply built_schema_shape in H as [C [p [Hsw [Hs He]]]].
  split; [|split].
  - intros Ha. rewrite Hs. unfold returned_schema, make_handlers. rewrite Ha.
    destruct (truthy isCLI), (redirect d), (truthy (deprecated d));
      split; reflexivity.
  - intros Ha. rewrite He, Hs. unfold returned_schema. rewrite Ha. reflexivity.
  - rewrite He. simpl.
    apply switch_type_cases in Hsw
      as [[Ht [-> _]]|[[Ht [-> _]]|[[Ht [-> _]]|[[Ht [-> _]]|[Ht [-> _]]]]]];
      rewrite Ht; repeat split; intros F; try reflexivity; discriminate F.
Qed.

(** X12. The choices of a choice descriptor reach the engine one for one
    and in order: an object with a truthy [redirect] keeps its keys and
    every other property, its [redirect] becoming
    [{to: {key: name, value: redirect}}]; every other choice is passed
    unchanged. *)
Theorem choices_rewritten (d : OptionInfo) (isCLI : jsval)
  (optionInfos : list OptionInfo) (s : schema) (t : list event)
  (l : list jsval) :
  type d = JString "choice" -> choices d = JArray l ->
  optionInfoToSchema d isCLI optionInfos = (Normal s, t) ->
  exists cs,
    param_choices (schema_parameters (element_schema s)) = Some cs /\
    Forall2 (choice_rewritten d) l cs.
Proof.
  intros Ht Hl H. apply built_schema_shape in H as [C [p [Hsw [_ He]]]].
  rewrite He. simpl.
  apply switch_type_cases in Hsw
    as [[F _]|[[_ [_ [l' [cs [Hl' [_ [Hall ->]]]]]]]|[[F _]|[[F _]|[F _]]]]];
    try (rewrite Ht in F; discriminate F).
  rewrite Hl in Hl'. injection Hl' as <-.
  exists cs. split; [|exact Hall].
  unfold set_validate, make_handlers.
  destruct (truthy (array d)), (exception d), (redirect d),
    (truthy (deprecated d)); reflexivity.
Qed.

(** *** The flag schema and the flags of the module *)

Lemma preprocess_substitutes (nm : string) (flags : list string)
  (s f : string) (utils : Utils) :
  s <> "" -> ~ In s flags -> first_close_match flags s f -> f <> "" ->
  preprocess (FlagSchema_constructor nm flags) (JString s) utils =
    (Normal (JString f),
     [LoggerWarn (logger utils)
        (unknown_flag_message utils (JString s) (JString f))]).
Proof.
  intros Hs Hout Hfirst Hf. unfold preprocess. simpl.
  rewrite (nonempty_length Hs). simpl.
  assert (Habs : indexOf (sort flags) s = (-1)%Z).
  { apply indexOf_absent. rewrite sort_In. exact Hout. }
  rewrite Habs. simpl. rewrite (find_close_match Hfirst). simpl.
  rewrite (nonempty_length Hf). reflexivity.
Qed.

Lemma truthy_string_nonempty (a : string) :
  truthy (JString a) = true <-> a <> "".
Proof.
  simpl. destruct a; simpl; split; congruence.
Qed.

Lemma flag_names_members (d : OptionInfo) (f : string) :
  In f (flag_names d) <->
  (alias d = Some f /\ f <> "") \/
  (truthy (description d) = true /\ f = name d) \/
  (truthy (oppositeDescription d) = true /\ f = "no-" ++ name d).
Proof.
  unfold flag_names, declares, truthy_string. rewrite !in_app_iff. split.
  - intros [H|[H|H]].
    + left. destruct (alias d) as [a|]; [|destruct H].
      destruct (truthy (JString a)) eqn:E; [|destruct H].
      destruct H as [<-|[]]. split; [reflexivity|].
      apply truthy_string_nonempty. exact E.
    + right. left. destruct (truthy (description d)); [|destruct H].
      destruct H as [<-|[]]. split; reflexivity.
    + right. right. destruct (truthy (oppositeDescription d)); [|destruct H].
      destruct H as [<-|[]]. split; reflexivity.
  - intros [[Ha Hf]|[[Hd ->]|[Ho ->]]].
    + left. rewrite Ha. apply truthy_string_nonempty in Hf. rewrite Hf.
      left. reflexivity.
    + right. left. rewrite Hd. left. reflexivity.
    + right. right. rewrite Ho. left. reflexivity.
Qed.

Lemma collect_flags_nonempty (optionInfos : list OptionInfo) :
  (forall d, In d optionInfos -> name d <> "") ->
  ~ In "" (collect_flags optionInfos).
Proof.
  intros Hn. rewrite collect_flags_universe. unfold flag_universe.
  rewrite in_concat. intros [l [Hl Hin]].
  apply in_map_iff in Hl as [d [<- Hd]].
  apply flag_names_members in Hin as [[_ F]|[[_ F]|[_ F]]].
  - apply F. reflexivity.
  - apply (Hn d Hd). symmetry. exact F.
  - discriminate F.
Qed.

(** X13. [preprocess] is idempotent: applied to the value it returned, it
    returns that value again and logs nothing, so a suggestion is never
    itself corrected. *)
Theorem preprocess_idempotent (this : FlagSchemaInstance) (v r : jsval)
  (utils : Utils) (t : list event) :
  preprocess this v utils = (Normal r, t) ->
  preprocess this r utils = (Normal r, []).
Proof.
  intros H. unfold preprocess in H.
  destruct v as [| |b|n|s|l|o]; try (injection H as <- _; reflexivity).
  destruct (negb (String.length s =? 0)%nat
            && (indexOf (_flags this) s =? -1)%Z) eqn:Ec.
  - destruct (find (fun flag => (leven flag s <? 3)%nat) (_flags this))
      as [f|] eqn:Ef; simpl in H.
    + destruct (negb (String.length f =? 0)%nat) eqn:En.
      * injection H as <- _. apply find_some in Ef as [Hin _].
        unfold preprocess.
        destruct (indexOf (_flags this) f =? -1)%Z eqn:Ei.
        -- apply Z.eqb_eq in Ei. rewrite indexOf_absent in Ei.
           contradiction.
        -- rewrite andb_false_r. reflexivity.
      * injection H as <- _. unfold preprocess. rewrite Ec, Ef. simpl.
        rewrite En. reflexivity.
    + injection H as <- _. unfold preprocess. rewrite Ec, Ef. reflexivity.
  - injection H as <- _. unfold preprocess. rewrite Ec. reflexivity.
Qed.

(** X15. What the flag universe contains: a string is in it exactly when
    some descriptor of the list has it as a non-empty alias, or declares a
    description and is named so, or declares an opposite description and
    the string is [no-] followed by its name. *)
Theorem flag_universe_members (optionInfos : list OptionInfo) (f : string) :
  In f (collect_flags optionInfos) <->
  exists d, In d optionInfos /\
    ((alias d = Some f /\ f <> "") \/
     (truthy (description d) = true /\ f = name d) \/
     (truthy (oppositeDescription d) = true /\ f = "no-" ++ name d)).
Proof.
  rewrite collect_flags_universe. unfold flag_universe.
  rewrite in_concat. split.
  - intros [l [Hl Hin]]. apply in_map_iff in Hl as [d [<- Hd]].
    exists d. split; [exact Hd|]. apply flag_names_members. exact Hin.
  - intros [d [Hd H]]. exists (flag_names d). split.
    + apply in_map. exact Hd.
    + apply flag_names_members. exact H.
Qed.

(** X16. On the flags this module collects from descriptors none of which
    has the empty name, a non-empty unknown string with some known flag at
    distance less than 3 is always replaced: [preprocess] returns the first
    such flag in sorted order and warns exactly once. *)
Theorem collected_flags_always_suggest (optionInfos : list OptionInfo)
  (nm s g : string) (utils : Utils) :
  (forall d, In d optionInfos -> name d <> "") ->
  s <> "" -> ~ In s (collect_flags optionInfos) ->
  close_match (collect_flags optionInfos) s g ->
  exists f,
    first_close_match (collect_flags optionInfos) s f /\
    preprocess (FlagSchema_constructor nm (collect_flags optionInfos))
      (JString s) utils =
      (Normal (JString f),
       [LoggerWarn (logger utils)
          (unknown_flag_message utils (JString s) (JString f))]).
Proof.
  intros Hn Hs Hout Hg.
  destruct (first_close_match_exists Hg) as [f Hfirst].
  exists f. split; [exact Hfirst|].
  apply preprocess_substitutes; try assumption.
  intros ->. destruct Hfirst as [[Hin _] _].
  revert Hin. apply collect_flags_nonempty. exact Hn.
Qed.

(** X17. The CLI rendering of keys is injective on non-empty keys: two
    different option names never render as the same flag. *)
Theorem cli_key_injective (k1 k2 : string) :
  k1 <> "" -> k2 <> "" ->
  key cliDescriptor k1 = key cliDescriptor k2 -> k1 = k2.
Proof.
  simpl. unfold cliDescriptor_key. intros H1 H2.
  destruct (String.length k1 =? 1)%nat eqn:E1;
    destruct (String.length k2 =? 1)%nat eqn:E2; simpl; intros H;
    injection H as H.
  - exact H.
  - subst k1. simpl in E1. destruct k2; [congruence|discriminate E1].
  - subst k2. simpl in E2. destruct k1; [congruence|discriminate E2].
  - exact H.
Qed.

(** X18. The first descriptor that fails decides the error: when, in CLI
    mode, the catch-all schema is accepted, the schema of every descriptor
    before it is built and its alias schema accepted, and its own schema
    construction throws, construction of the whole list throws that error,
    whatever follows it. *)
Theorem first_failure_decides (pre post : list OptionInfo) (d : OptionInfo)
  (isCLI : jsval) (e : error) (t : list event) :
  starts isCLI ->
  Forall (builds isCLI (pre ++ d :: post)) pre ->
  optionInfoToSchema d isCLI (pre ++ d :: post) = (Throw e, t) ->
  optionInfosToSchemas (pre ++ d :: post) isCLI = (Throw e, []).
Proof.
  intros Hs Hb Hd. unfold optionInfosToSchemas.
  destruct (truthy isCLI) eqn:Em.
  - rewrite (engine_create_accepted _ _ (Hs Em)), bind_pure, bind_ret_l.
    apply push_schemas_first_failure with (t := t); assumption.
  - rewrite bind_ret_l.
    apply push_schemas_first_failure with (t := t); assumption.
Qed.

End OptionsNormalizer.

(** ** The claims on concrete inputs

    The collaborators are instantiated: numbers by integers, non-zero ones
    being truthy and printed in decimal; [leven] by the Levenshtein
    distance; [chalk] by the identity; the generic descriptor by plain
    string conversion; the logger by the one-point type; the engine's
    constructors by the sample that rejects repeated choices. *)

Local Notation nz := (fun z : Z => negb (z =? 0)%Z).
Local Notation dec := (fun z : Z => NilZero.string_of_int (Z.to_int z)).
Local Notation num := (fun _ : jsval Z => 0%Z).
Local Notation plain := (fun s : string => s).
Local Notation api :=
  {| key := plain;
     value := ToString dec;
     pair := fun k v => k ++ ": " ++ ToString dec v |}.
Local Notation utils0 := {| logger := tt; descriptor := api |}.
Local Notation silent :=
  (fun (_ : string) (_ : jsval Z) (_ : Utils unit Z) =>
     ret unit (JUndefined Z)).
Local Notation rr := (reject_repeats (Logger:=unit) (number:=Z)).
Local Notation info n ty :=
  {| name := n; type := JString Z ty; array := JUndefined Z; alias := None;
     choices := JUndefined Z; description := JUndefined Z;
     oppositeDescription := JUndefined Z; exception := None;
     redirect := None; deprecated := JUndefined Z |}.

Lemma cliDescriptor_rendering_witness :
  key (cliDescriptor dec api) "x" = "-x" /\
  key (cliDescriptor dec api) "tab-width" = "--tab-width" /\
  pair (cliDescriptor dec api) "x" (JBool Z false) = "--no-x" /\
  pair (cliDescriptor dec api) "semi" (JBool Z true) = "--semi" /\
  pair (cliDescriptor dec api) "parser" (JString Z "") =
    "--parser without an argument" /\
  pair (cliDescriptor dec api) "x" (JString Z "y") = "-x=y" /\
  pair (cliDescriptor dec api) "tab-width" (JNumber 4%Z) = "--tab-width=4".
Proof.
  split; [apply (cliDescriptor_rendering dec api "x" (JNull Z)); reflexivity|].
  split; [apply (cliDescriptor_rendering dec api "tab-width" (JNull Z));
          discriminate|].
  split; [apply (cliDescriptor_rendering dec api "x" (JBool Z false));
          reflexivity|].
  split; [apply (cliDescriptor_rendering dec api "semi" (JBool Z true));
          reflexivity|].
  split; [apply (cliDescriptor_rendering dec api "parser" (JString Z ""));
          reflexivity|].
  split; [apply (cliDescriptor_rendering dec api "x" (JString Z "y"));
          discriminate|].
  apply (cliDescriptor_rendering dec api "tab-width" (JNumber 4%Z));
    discriminate.
Defined.

Lemma preprocess_suggestion_witness :
  let this := FlagSchema_constructor "flag" ["foo"; "bar"] in
  preprocess nz levenshtein plain plain this (JString Z "fooo") utils0 =
    (Normal (JString Z "foo"),
     [LoggerWarn tt "Unknown flag fooo, did you mean foo?"]) /\
  preprocess nz levenshtein plain plain this (JString Z "zzz") utils0 =
    (Normal (JString Z "zzz"), []) /\
  preprocess nz levenshtein plain plain this (JNumber 3%Z) utils0 =
    (Normal (JNumber 3%Z), []) /\
  preprocess nz levenshtein plain plain this (JString Z "") utils0 =
    (Normal (JString Z ""), []) /\
  preprocess nz levenshtein plain plain this (JString Z "bar") utils0 =
    (Normal (JString Z "bar"), []).
Proof.
  intros this.
  split.
  { destruct (preprocess_suggestion nz levenshtein plain plain "flag"
                ["foo"; "bar"] (JString Z "fooo") utils0) as [H _].
    destruct (H "fooo" "foo") as [f [[[Hin Hlt] _] Hf]].
    - reflexivity.
    - discriminate.
    - intros [F|[F|[]]]; discriminate F.
    - split; [left; reflexivity|vm_compute; lia].
    - destruct Hin as [<-|[<-|[]]].
      + apply Hf. discriminate.
      + vm_compute in Hlt. lia. }
  split.
  { destruct (preprocess_suggestion nz levenshtein plain plain "flag"
                ["foo"; "bar"] (JString Z "zzz") utils0) as [_ [H _]].
    apply (H "zzz").
    - reflexivity.
    - discriminate.
    - intros [F|[F|[]]]; discriminate F.
    - intros g [<-|[<-|[]]]; vm_compute; lia. }
  split.
  { destruct (preprocess_suggestion nz levenshtein plain plain "flag"
                ["foo"; "bar"] (JNumber 3%Z) utils0) as [_ [_ [H _]]].
    apply H. discriminate. }
  split.
  { destruct (preprocess_suggestion nz levenshtein plain plain "flag"
                ["foo"; "bar"] (JString Z "") utils0) as [_ [_ [_ [H _]]]].
    apply H. reflexivity. }
  destruct (preprocess_suggestion nz levenshtein plain plain "flag"
              ["foo"; "bar"] (JString Z "bar") utils0) as [_ [_ [_ [_ H]]]].
  apply (H "bar"); [reflexivity|right; left; reflexivity].
Defined.

(** C2 as stated fails when the empty string is a known flag: it sorts
    first and is at distance 2 from ["ac"], so [find] answers with it, the
    test of the suggestion fails and the value comes back unchanged,
    without a warning, although ["ab"] is at distance 1. *)
Lemma preprocess_empty_flag_counterexample :
  let flags := ["ab"; ""] in
  let this := FlagSchema_constructor "flag" flags in
  "ac" <> "" /\ ~ In "ac" flags /\
  first_close_match levenshtein flags "ac" "" /\
  preprocess nz levenshtein plain plain this (JString Z "ac") utils0 =
    (Normal (JString Z "ac"), []) /\
  preprocess nz levenshtein plain plain this (JString Z "ac") utils0 <>
    (Normal (JString Z ""),
     [LoggerWarn tt
        (unknown_flag_message plain plain utils0
           (JString Z "ac") (JString Z ""))]).
Proof.
  intros flags this. split; [discriminate|]. split.
  { intros [F|[F|[]]]; discriminate F. }
  split.
  { split; [split; [right; left; reflexivity|vm_compute; lia]|].
    intros g _. destruct g; reflexivity. }
  split; [reflexivity|]. vm_compute. discriminate.
Qed.

Local Notation twice_info :=
  {| name := "parser"; type := JString Z "choice"; array := JUndefined Z;
     alias := None;
     choices := JArray [JString Z "babel"; JString Z "flow"; JString Z "babel"];
     description := JUndefined Z; oppositeDescription := JUndefined Z;
     exception := None; redirect := None; deprecated := JUndefined Z |}.



Lemma unknown_key_policy_witness :
  let listed :=
    Some {| settings_logger := Some tt; settings_isCLI := None;
            settings_passThrough := Some (JArray [JString Z "foo"]) |} in
  let all :=
    Some {| settings_logger := Some tt; settings_isCLI := None;
            settings_passThrough := Some (JBool Z true) |} in
  unknown_handler nz silent (passThrough_of (Logger:=unit) (number:=Z) None)
    = silent /\
  unknown_handler nz silent (passThrough_of listed) "foo" (JNumber 1%Z) utils0
    = (Normal (JObject [("foo", JNumber 1%Z)]), []) /\
  unknown_handler nz silent (passThrough_of listed) "bar" (JNumber 2%Z) utils0
    = (Normal (JUndefined Z), []) /\
  unknown_handler nz silent (passThrough_of all) "bar" (JNumber 2%Z) utils0
    = (Normal (JObject [("bar", JNumber 2%Z)]), []).
Proof.
  intros listed all.
  split.
  { destruct (unknown_key_policy nz dec num api rr silent
                (probe_normalize (Logger:=unit) (number:=Z)) [] [] None)
      as [_ [H _]].
    apply H. reflexivity. }
  destruct (unknown_key_policy nz dec num api rr silent
              (probe_normalize (Logger:=unit) (number:=Z)) [] [] listed)
    as [_ [_ [H _]]].
  split.
  { apply (H [JString Z "foo"] eq_refl "foo" (JNumber 1%Z) utils0).
    left. reflexivity. }
  split.
  { apply (H [JString Z "foo"] eq_refl "bar" (JNumber 2%Z) utils0).
    intros [F|[]]. discriminate F. }
  destruct (unknown_key_policy nz dec num api rr silent
              (probe_normalize (Logger:=unit) (number:=Z)) [] [] all)
    as [_ [_ [_ H']]].
  apply H'; [reflexivity|]. intros names F. discriminate F.
Defined.

Lemma entry_points_witness :
  let bare :=
    Some {| settings_logger := Some tt; settings_isCLI := None;
            settings_passThrough := Some (JBool Z true) |} in
  let own :=
    Some {| settings_logger := Some tt; settings_isCLI := Some (JBool Z false);
            settings_passThrough := None |} in
  let run := normalizeOptions nz dec num api rr silent
               (probe_normalize (Logger:=unit) (number:=Z)) in
  normalizeApiOptions nz dec num api rr silent
    (probe_normalize (Logger:=unit) (number:=Z)) [] [info "semi" "boolean"]
    bare = run [] [info "semi" "boolean"] (fix_isCLI false bare) /\
  normalizeCliOptions nz dec num api rr silent
    (probe_normalize (Logger:=unit) (number:=Z)) [] [info "semi" "boolean"]
    bare = run [] [info "semi" "boolean"] (fix_isCLI true bare) /\
  normalizeCliOptions nz dec num api rr silent
    (probe_normalize (Logger:=unit) (number:=Z)) [] [info "semi" "boolean"]
    own = run [] [info "semi" "boolean"] own.
Proof.
  intros bare own run.
  destruct (entry_points nz dec num api rr silent
              (probe_normalize (Logger:=unit) (number:=Z)) []
              [info "semi" "boolean"] bare) as [H _].
  destruct (H eq_refl) as [Ha Hc].
  destruct (entry_points nz dec num api rr silent
              (probe_normalize (Logger:=unit) (number:=Z)) []
              [info "semi" "boolean"] own) as [_ H'].
  destruct (H' eq_refl) as [_ Hc'].
  split; [exact Ha|]. split; [exact Hc|exact Hc'].
Defined.

(** C4 as stated fails when the settings carry [isCLI] themselves: the CLI
    entry point given [isCLI: false] builds the API schema list (no ["_"]
    schema), and the API entry point given [isCLI: true] builds the CLI
    one. *)
Lemma entry_points_counterexample :
  let off :=
    Some {| settings_logger := None; settings_isCLI := Some (JBool Z false);
            settings_passThrough := None |} in
  let on :=
    Some {| settings_logger := None; settings_isCLI := Some (JBool Z true);
            settings_passThrough := None |} in
  let run := normalizeOptions nz dec num api rr silent
               (probe_normalize (Logger:=unit) (number:=Z)) in
  normalizeCliOptions nz dec num api rr silent
    (probe_normalize (Logger:=unit) (number:=Z)) [] [] off
    = (Normal (JArray []), []) /\
  run [] [] (fix_isCLI true off) = (Normal (JArray [JString Z "_"]), []) /\
  normalizeCliOptions nz dec num api rr silent
    (probe_normalize (Logger:=unit) (number:=Z)) [] [] off
    <> run [] [] (fix_isCLI true off) /\
  normalizeApiOptions nz dec num api rr silent
    (probe_normalize (Logger:=unit) (number:=Z)) [] [] on
    = (Normal (JArray [JString Z "_"]), []) /\
  normalizeApiOptions nz dec num api rr silent
    (probe_normalize (Logger:=unit) (number:=Z)) [] [] on
    <> run [] [] (fix_isCLI false on).
Proof.
  intros off on run.
  split; [reflexivity|]. split; [reflexivity|].
  split; [intros F; discriminate F|].
  split; [reflexivity|]. intros F. discriminate F.
Qed.

Local Notation special :=
  (fun v : jsval Z =>
     match v with
     | JString _ s => JBool Z (String.eqb s "special")
     | _ => JBool Z false
     end).
Local Notation parser_info :=
  {| name := "parser"; type := JString Z "choice"; array := JUndefined Z;
     alias := None;
     choices := JArray [JString Z "babel"; JString Z "flow"];
     description := JString Z "Which parser to use.";
     oppositeDescription := JUndefined Z; exception := Some special;
     redirect := None; deprecated := JUndefined Z |}.

Lemma effective_validator_witness :
  exists s,
    optionInfoToSchema nz dec num rr parser_info (JBool Z false)
      [parser_info] = (Normal s, []) /\
    exists C p f,
      element_schema s = create C p /\ param_validate p = Some f /\
      forall schema utils,
        f (JString Z "special") schema utils = JBool Z true /\
        f (JString Z "flow") schema utils =
          validate schema (JString Z "flow") utils.
Proof.
  eexists. split; [reflexivity|].
  destruct (effective_validator (Logger:=unit) nz dec num rr parser_info
              (JBool Z false) [parser_info] (t:=[]) eq_refl)
    as [C [p [f [He [Hf [Hex _]]]]]].
  exists C, p, f. split; [exact He|]. split; [exact Hf|].
  intros schema utils. split.
  - apply (Hex special eq_refl (JString Z "special") schema utils).
    reflexivity.
  - apply (Hex special eq_refl (JString Z "flow") schema utils).
    reflexivity.
Defined.

Local Notation help_info :=
  {| name := "help"; type := JString Z "flag"; array := JUndefined Z;
     alias := Some "h"; choices := JUndefined Z;
     description := JString Z "Show usage.";
     oppositeDescription := JUndefined Z; exception := None;
     redirect := None; deprecated := JUndefined Z |}.
Local Notation color_info :=
  {| name := "color"; type := JString Z "boolean"; array := JUndefined Z;
     alias := None; choices := JUndefined Z;
     description := JString Z "Colorize messages.";
     oppositeDescription := JString Z "Do not colorize messages.";
     exception := None; redirect := None; deprecated := JUndefined Z |}.

Lemma flag_universe_collected_witness :
  exists s,
    optionInfoToSchema nz dec num rr help_info (JBool Z true)
      [help_info; info "stdin" "boolean"; color_info] = (Normal s, []) /\
    exists p,
      element_schema s = create FlagSchema p /\
      param_flags p = Some ["h"; "help"; "color"; "no-color"].
Proof.
  eexists. split; [reflexivity|].
  apply (flag_universe_collected (Logger:=unit) nz dec num rr help_info
           (JBool Z true) [help_info; info "stdin" "boolean"; color_info]
           (t:=[]));
    reflexivity.
Defined.

Local Notation files_info :=
  {| name := "files"; type := JString Z "path"; array := JBool Z true;
     alias := None; choices := JUndefined Z; description := JUndefined Z;
     oppositeDescription := JUndefined Z; exception := None;
     redirect :=
       Some {| redirect_option := JString Z "sources";
               redirect_value := JBool Z true |};
     deprecated := JBool Z true |}.

Lemma redirect_handler_attached_witness :
  exists s,
    optionInfoToSchema nz dec num rr files_info (JBool Z true)
      [files_info] = (Normal s, []) /\
    exists C p h,
      s = create C p /\ param_redirect p = Some h /\
      h (JString Z "") = JUndefined Z /\
      h (JArray [JString Z "a.js"]) =
        JObject [("to", JObject [("key", JString Z "sources");
                                 ("value", JBool Z true)])].
Proof.
  eexists. split; [reflexivity|].
  destruct (redirect_handler_attached (Logger:=unit) nz dec num rr files_info
              (JBool Z true) [files_info] (t:=[]) eq_refl eq_refl)
    as [C [p [h [Hs [Hp Hh]]]]].
  exists C, p, h. split; [exact Hs|]. split; [exact Hp|]. split.
  - apply (Hh (JString Z "")). reflexivity.
  - apply (Hh (JArray [JString Z "a.js"])). reflexivity.
Defined.

Lemma array_schema_wrapping_witness :
  exists s,
    optionInfoToSchema nz dec num rr files_info (JBool Z true)
      [files_info] = (Normal s, []) /\
    exists pa p f,
      s = create ArraySchema pa /\
      param_valueSchema pa = Some (create StringSchema p) /\
      param_deprecated pa = Some true /\ param_validate pa = None /\
      param_validate p = Some f /\
      (forall schema utils, f (JUndefined Z) schema utils = JBool Z true) /\
      param_redirect p = None /\ param_deprecated p = None.
Proof.
  eexists. split; [reflexivity|].
  destruct (array_schema_wrapping (Logger:=unit) nz dec num rr files_info
              (JBool Z true) [files_info] (t:=[]) eq_refl eq_refl)
    as [pa [C [p [f [Hs [Hvs [_ [Hd [Hv [_ [Hf [Hu [_ [Hr Hd']]]]]]]]]]]]]].
  exists pa, p, f. split; [exact Hs|].
  assert (HC : C = StringSchema).
  { injection Hs as Hpa. rewrite <- Hpa in Hvs. simpl in Hvs.
    injection Hvs as HC _. symmetry. exact HC. }
  subst C. split; [exact Hvs|]. split; [exact Hd|]. split; [exact Hv|].
  split; [exact Hf|]. split; [exact (Hu eq_refl)|]. split; assumption.
Defined.

(** ** Further checks against the testable properties of the specification *)

Example levenshtein_values :
  levenshtein "foo" "fooo" = 1 /\ levenshtein "kitten" "sitting" = 3 /\
  levenshtein "" "ac" = 2 /\ levenshtein "bar" "zzz" = 3.
Proof. repeat split; reflexivity. Qed.

Example sort_by_code_units :
  sort ["foo"; "bar"; ""; "Zed"; "ba"] = [""; "Zed"; "ba"; "bar"; "foo"].
Proof. reflexivity. Qed.

Example cli_array_coercion :
  concat_value (JString Z "a") = JArray [JString Z "a"] /\
  concat_value (JArray [JString Z "a"; JString Z "b"]) =
    JArray [JString Z "a"; JString Z "b"].
Proof. split; reflexivity. Qed.

Example choice_redirect_rewritten :
  rewrite_choice unit nz parser_info
    (JObject [("value", JString Z "postcss"); ("redirect", JString Z "css")])
  = (Normal
       (JObject
          [("value", JString Z "postcss");
           ("redirect",
            JObject [("to", JObject [("key", JString Z "parser");
                                     ("value", JString Z "css")])])]),
     []).
Proof. reflexivity. Qed.

Example cli_schema_list :
  bind (optionInfosToSchemas nz dec num rr [help_info; color_info]
          (JBool Z true))
       (fun schemas => ret unit (map (schema_name (number:=Z)) schemas))
  = (Normal [JString Z "_"; JString Z "help"; JString Z "h";
             JString Z "color"], []).
Proof. reflexivity. Qed.

(** ** The further properties on concrete inputs *)

Local Notation css_info :=
  {| name := "parser"; type := JString Z "choice"; array := JUndefined Z;
     alias := None;
     choices :=
       JArray [JString Z "babel";
               JObject [("value", JString Z "postcss");
                        ("redirect", JString Z "css")]];
     description := JUndefined Z; oppositeDescription := JUndefined Z;
     exception := None; redirect := None; deprecated := JUndefined Z |}.
Local Notation probe := (probe_normalize (Logger:=unit) (number:=Z)).

Lemma construction_outcomes_witness :
  (Forall (recognized (number:=Z)) [info "tabWidth" "int"; css_info] /\
   Forall (choices_listed (number:=Z)) [info "tabWidth" "int"; css_info]) /\
  ((exists d, In d [info "tabWidth" "int"; twice_info] /\ ~ recognized d /\
      Error ("Duplicate value " ++ quote ++ "babel" ++ quote) =
        Error ("Unexpected type " ++ ToString dec (type d))) \/
   (exists d msg,
      In d [info "tabWidth" "int"; twice_info] /\ ~ choices_listed d /\
      Error ("Duplicate value " ++ quote ++ "babel" ++ quote) =
        TypeError msg) \/
   rejected rr (Error ("Duplicate value " ++ quote ++ "babel" ++ quote))).
Proof.
  split.
  - destruct (construction_outcomes nz dec num rr
                [info "tabWidth" "int"; css_info] (JBool Z true)) as [H _].
    eapply H. reflexivity.
  - destruct (construction_outcomes nz dec num rr
                [info "tabWidth" "int"; twice_info] (JBool Z true)) as [_ H].
    eapply H. reflexivity.
Defined.

Lemma normalizer_delegates_witness :
  normalizeOptions nz dec num api rr silent probe [] [info "semi" "boolean"]
    None
    = (Normal (JArray [JString Z "semi"]), []) /\
  normalizeOptions nz dec num api rr silent probe [("color", JBool Z true)]
    [info "color" "colour"] None
    = (Throw (Error "Unexpected type colour"), []).
Proof.
  split.
  - destruct (normalizer_delegates nz dec num api rr silent probe []
                [info "semi" "boolean"] None) as [H _].
    etransitivity; [eapply H; reflexivity|reflexivity].
  - destruct (normalizer_delegates nz dec num api rr silent probe
                [("color", JBool Z true)] [info "color" "colour"] None)
      as [_ H].
    eapply H. reflexivity.
Defined.

Lemma mode_is_truthiness_witness :
  let one :=
    Some {| settings_logger := Some tt; settings_isCLI := Some (JNumber 1%Z);
            settings_passThrough := None |} in
  normalizeOptions nz dec num api rr silent probe [] [info "semi" "boolean"] one
    = normalizeOptions nz dec num api rr silent probe [] [info "semi" "boolean"]
        (fix_isCLI true one).
Proof.
  intros one. apply mode_is_truthiness. reflexivity.
Defined.

Lemma schema_list_structure_witness :
  exists schemas,
    optionInfosToSchemas nz dec num rr [help_info; color_info]
      (JBool Z true) = (Normal schemas, []) /\
    exists ss,
      Forall2
        (fun d s =>
           optionInfoToSchema nz dec num rr d (JBool Z true)
             [help_info; color_info] = (Normal s, []))
        [help_info; color_info] ss /\
      schemas =
        ([create AnySchema (obj_name unit Z "_")] ++
         flat_map
           (fun ds => snd ds :: alias_schemas unit nz (JBool Z true) (fst ds))
           (combine [help_info; color_info] ss))%list.
Proof.
  eexists. split; [reflexivity|].
  apply (schema_list_structure (Logger:=unit) nz dec num rr
           [help_info; color_info] (JBool Z true) (t:=[])).
  reflexivity.
Defined.

Lemma api_one_schema_each_witness :
  exists schemas,
    optionInfosToSchemas nz dec num rr [help_info; color_info]
      (JBool Z false) = (Normal schemas, []) /\
    List.length schemas = 2.
Proof.
  eexists. split; [reflexivity|].
  apply (api_one_schema_each (Logger:=unit) nz dec num rr
           [help_info; color_info] (JBool Z false) (t:=[]));
    reflexivity.
Defined.

Lemma schema_names_witness :
  exists schemas,
    optionInfosToSchemas nz dec num rr [help_info; color_info]
      (JBool Z true) = (Normal schemas, []) /\
    map (element_name (Logger:=unit) (number:=Z)) schemas =
      [Some "_"; Some "help"; Some "h"; Some "color"].
Proof.
  eexists. split; [reflexivity|].
  apply (schema_names (Logger:=unit) nz dec num rr [help_info; color_info]
           (JBool Z true) (t:=[])).
  reflexivity.
Defined.

Lemma handlers_follow_declarations_witness :
  exists s,
    optionInfoToSchema nz dec num rr files_info (JBool Z false)
      [files_info] = (Normal s, []) /\
    param_deprecated (schema_parameters s) = Some true /\
    exists s',
      optionInfoToSchema nz dec num rr color_info (JBool Z false)
        [color_info] = (Normal s', []) /\
      param_redirect (schema_parameters s') = None.
Proof.
  eexists. split; [reflexivity|]. split.
  - apply (handlers_follow_declarations (Logger:=unit) nz dec num rr files_info
             (JBool Z false) [files_info] (t:=[])).
    reflexivity.
  - eexists. split; [reflexivity|].
    apply (handlers_follow_declarations (Logger:=unit) nz dec num rr color_info
             (JBool Z false) [color_info] (t:=[])).
    reflexivity.
Defined.


Lemma schema_kind_follows_type_witness :
  exists s,
    optionInfoToSchema nz dec num rr files_info (JBool Z true)
      [files_info] = (Normal s, []) /\
    element_name s = Some "files" /\
    schema_constructor s = ArraySchema /\
    schema_constructor (element_schema s) = StringSchema.
Proof.
  eexists. split; [reflexivity|].
  destruct (schema_kind_follows_type (Logger:=unit) nz dec num rr files_info
              (JBool Z true) [files_info] (t:=[]) eq_refl)
    as [Hn [Ha [_ [_ [_ [_ [_ Hp]]]]]]].
  split; [exact Hn|]. split; [apply Ha; reflexivity|].
  apply Hp. reflexivity.
Defined.

Lemma choices_rewritten_witness :
  exists s,
    optionInfoToSchema nz dec num rr css_info (JBool Z false) [css_info]
      = (Normal s, []) /\
    exists cs,
      param_choices (schema_parameters (element_schema s)) = Some cs /\
      Forall2 (choice_rewritten nz css_info)
        [JString Z "babel";
         JObject [("value", JString Z "postcss");
                  ("redirect", JString Z "css")]] cs.
Proof.
  eexists. split; [reflexivity|].
  apply (choices_rewritten (Logger:=unit) nz dec num rr css_info (JBool Z false)
           [css_info] (t:=[])); reflexivity.
Defined.

Lemma preprocess_idempotent_witness :
  preprocess nz levenshtein plain plain
    (FlagSchema_constructor "flag" ["foo"; "bar"]) (JString Z "foo") utils0
  = (Normal (JString Z "foo"), []).
Proof.
  apply (preprocess_idempotent nz levenshtein plain plain
           (FlagSchema_constructor "flag" ["foo"; "bar"])
           (JString Z "fooo") utils0
           (t:=[LoggerWarn tt "Unknown flag fooo, did you mean foo?"])).
  reflexivity.
Defined.

Lemma flag_universe_members_witness :
  In "no-color" (collect_flags nz [help_info; color_info]) /\
  ~ In "no-help" (collect_flags nz [help_info; color_info]).
Proof.
  split.
  - apply (flag_universe_members nz [help_info; color_info] "no-color").
    exists color_info. split; [right; left; reflexivity|].
    right. right. split; reflexivity.
  - intros F.
    apply (flag_universe_members nz [help_info; color_info] "no-help") in F.
    destruct F as [d [[<-|[<-|[]]] [[F G]|[[F G]|[F G]]]]]; simpl in F, G;
      first [discriminate F|discriminate G].
Defined.

Lemma collected_flags_always_suggest_witness :
  exists f,
    first_close_match levenshtein (collect_flags nz [help_info; color_info])
      "colr" f /\
    preprocess nz levenshtein plain plain
      (FlagSchema_constructor "flag"
         (collect_flags nz [help_info; color_info]))
      (JString Z "colr") utils0 =
      (Normal (JString Z f),
       [LoggerWarn tt
          (unknown_flag_message plain plain utils0
             (JString Z "colr") (JString Z f))]).
Proof.
  apply (collected_flags_always_suggest nz (leven:=levenshtein) plain plain
           [help_info; color_info] "flag" (s:="colr") (g:="color") utils0).
  - intros d [<-|[<-|[]]]; discriminate.
  - discriminate.
  - intros F. vm_compute in F.
    destruct F as [F|[F|[F|[F|[]]]]]; discriminate F.
  - split; [right; right; left; reflexivity|vm_compute; lia].
Defined.

Lemma cli_key_injective_witness :
  key (cliDescriptor dec api) "w" <> key (cliDescriptor dec api) "write".
Proof.
  intros H.
  assert (F : "w" = "write").
  { apply (cli_key_injective dec api); [discriminate|discriminate|exact H]. }
  discriminate F.
Defined.

Lemma first_failure_decides_witness :
  optionInfosToSchemas nz dec num rr
    ([info "tabWidth" "int"] ++ twice_info :: [info "color" "colour"])
    (JBool Z true)
  = (Throw (Error ("Duplicate value " ++ quote ++ "babel" ++ quote)), []).
Proof.
  apply (first_failure_decides (Logger:=unit) (number_truthy:=nz)
           (Number_toString:=dec) (Number:=num) (create_error:=rr)
           (pre:=[info "tabWidth" "int"]) [info "color" "colour"]
           twice_info (isCLI:=JBool Z true) (t:=[])).
  - intros _. reflexivity.
  - apply Forall_cons; [|apply Forall_nil]. split.
    + eexists. reflexivity.
    + intros a F. discriminate F.
  - reflexivity.
Defined.

Example unexpected_type_named :
  normalizeOptions nz dec num api rr silent probe [("color", JBool Z true)]
    [info "tabWidth" "int"; info "color" "colour"] None
  = (Throw (Error "Unexpected type colour"), []).
Proof. reflexivity. Qed.

Local Notation h_info :=
  {| name := "h"; type := JString Z "boolean"; array := JUndefined Z;
     alias := None; choices := JUndefined Z;
     description := JString Z "Highlight."; oppositeDescription := JUndefined Z;
     exception := None; redirect := None; deprecated := JUndefined Z |}.

Example repeated_flag_rejected :
  collect_flags nz [help_info; h_info] = ["h"; "help"; "h"] /\
  optionInfosToSchemas nz dec num rr [help_info; h_info] (JBool Z false)
  = (Throw (Error ("Duplicate value " ++ quote ++ "h" ++ quote)), []).
Proof. split; reflexivity. Qed.
